(** * Prisma CLI: service definition helpers and schema introspection

    Part one embeds the helpers of [PrismaDefinitionClass]
    (prisma-cli-engine, PrismaDefinition.ts): [getToken], [getHooks] and
    [concatName].  Part two models the database introspection pipeline
    that relations.test.ts drives. *)

From stdpp Require Import base strings list gmap.

#[local] Set Warnings "-register-all".
Open Scope string_scope.

(** ** JavaScript values, as far as the helpers inspect them *)
Module Js.

(** A number is only ever tested for truthiness here: [NaN] and zero
    are falsy, everything else is truthy. *)
Inductive number :=
| NaN
| Num (z : Z).

Inductive value :=
| VUndefined
| VNull
| VBool (b : bool)
| VNumber (n : number)
| VString (s : string)
| VArray (items : list value)
| VObject (props : list (string * value)).

(** What a statement leaves behind: a returned value or a thrown
    [Error] with its message. *)
Inductive completion (A : Type) :=
| Return (a : A)
| Throw (message : string).
Arguments Return {A} a.
Arguments Throw {A} message.

Definition cmap {A B} (f : A → B) (c : completion A) : completion B :=
  match c with
  | Return a => Return (f a)
  | Throw m => Throw m
  end.

(** ToBoolean on a string: only the empty string is falsy. *)
Definition truthy_string (s : string) : bool :=
  match s with
  | EmptyString => false
  | String _ _ => true
  end.

(** ToBoolean. *)
Definition truthy (v : value) : bool :=
  match v with
  | VUndefined | VNull => false
  | VBool b => b
  | VNumber NaN => false
  | VNumber (Num z) => negb (Z.eqb z 0)
  | VString s => truthy_string s
  | VArray _ | VObject _ => true
  end.

(** [typeof v === 'string'] *)
Definition is_string (v : value) : bool :=
  match v with VString _ => true | _ => false end.

(** [Array.isArray(v)] *)
Definition is_array (v : value) : bool :=
  match v with VArray _ => true | _ => false end.

(** Own property lookup in an object literal. *)
Fixpoint own_prop (props : list (string * value)) (key : string) : value :=
  match props with
  | [] => VUndefined
  | (k, v) :: rest => if String.eqb k key then v else own_prop rest key
  end.

End Js.

(** ** PrismaDefinition.ts *)
Module PrismaDefinition.
Import Js.

(** [export type HookType = 'post-deploy'] *)
Inductive HookType : Set := PostDeploy.

Definition hookTypeKey (hookType : HookType) : string :=
  match hookType with PostDeploy => "post-deploy" end.

(** Modelled from the spec: the interface [PrismaDefinition] comes from
    the package prisma-json-schema, which is not among the sources at
    hand; the record keeps the two properties the helpers below read.
    [hooks] is whatever the YAML document holds under that key
    ([VUndefined] when the key is absent). *)
Record PrismaDefinitionJson := {
  secret : option string;
  hooks : value;
}.

(** Modelled from the spec: the class [Cluster] is declared in
    ./Cluster, which is not among the sources at hand; the fields are
    the arguments of the constructor call in [getCluster]. *)
Record Cluster := {
  name : string;
  baseUrl : string;
  clusterSecret : option string;
  local : bool;
  shared : bool;
  isPrivate : bool;
  workspaceSlug : option string;
}.

(** The fields of [PrismaDefinitionClass] that [getToken] and
    [getHooks] read. *)
Record PrismaDefinitionClass := {
  definition : option PrismaDefinitionJson;
  secrets : option (list string);
}.

(** [this.definition.hooks[hookType]] for a truthy [hooks]: a property
    lookup.  No string, array, number or boolean has a property named
    after a hook type, so only objects answer with something defined. *)
Definition hookProp (hooks : value) (hookType : HookType) : value :=
  match hooks with
  | VObject props => own_prop props (hookTypeKey hookType)
  | _ => VUndefined
  end.

Definition hookError (hookType : HookType) : string :=
  "Hook " +:+ hookTypeKey hookType
    +:+ " provided in prisma.yml must be string or an array of strings.".

(** [getHooks(hookType: HookType): string[]]; the static return type
    is not enforced at run time, so the result is a value. *)
Definition getHooks (this : PrismaDefinitionClass) (hookType : HookType)
  : completion value :=
  match definition this with
  | None => Return (VArray [])
  | Some def =>
      if truthy (hooks def) && truthy (hookProp (hooks def) hookType) then
        let hooks := hookProp (hooks def) hookType in
        if negb (is_string hooks) && negb (is_array hooks) then
          Throw (hookError hookType)
        else
          Return (if is_string hooks then VArray [hooks] else hooks)
      else Return (VArray [])
  end.

(** The value the definition declares for a hook type: [VUndefined]
    when there is no definition, no [hooks] object or no such key. *)
Definition declaredHook (this : PrismaDefinitionClass) (hookType : HookType)
  : value :=
  match definition this with
  | None => VUndefined
  | Some def => hookProp (hooks def) hookType
  end.

(** The payload and options handed to [jwt.sign]. *)
Record TokenData := {
  service : string;
  roles : list string;
}.

Record TokenPayload := { data : TokenData }.

Record SignOptions := { expiresIn : string }.

Section Token.
(** [jwt.sign] of the jsonwebtoken package, called without a
    callback: it returns the token or throws.  The key is
    [secrets[0]], which is [undefined] (here [None]) on an empty
    array. *)
Variable jwt_sign :
  TokenPayload → option string → SignOptions → completion string.

(** [getToken(serviceName, stageName): string | undefined] *)
Definition getToken (this : PrismaDefinitionClass)
    (serviceName stageName : string) : completion (option string) :=
  match secrets this with
  | Some secrets =>
      let data :=
        {| data := {| service := serviceName +:+ "@" +:+ stageName;
                      roles := ["admin"] |} |} in
      cmap Some (jwt_sign data (head secrets) {| expiresIn := "7d" |})
  | None => Return None
  end.
End Token.

(** [concatName(cluster, name, workspace)] *)
Definition concatName (cluster : Cluster) (name : string)
    (workspace : option string) : string :=
  if shared cluster then
    let workspaceString :=
      match workspace with
      | Some w => if truthy_string w then w +:+ "~" else ""
      | None => ""
      end in
    workspaceString +:+ name
  else name.

(** A service definition whose post-deploy hook is the empty string,
    as [hooks: { post-deploy: '' }] in prisma.yml. *)
Definition emptyHookDefinition : PrismaDefinitionClass :=
  {| definition :=
       Some {| secret := None;
               hooks := VObject [("post-deploy", VString "")] |};
     secrets := None |}.

(** A service definition whose post-deploy hook is [false]. *)
Definition falseHookDefinition : PrismaDefinitionClass :=
  {| definition :=
       Some {| secret := None;
               hooks := VObject [("post-deploy", VBool false)] |};
     secrets := None |}.

(** A shared cluster, as [parseEndpoint] describes a demo server. *)
Definition demoCluster : Cluster :=
  {| name := "prisma-eu1"; baseUrl := "https://eu1.prisma.sh";
     clusterSecret := None; local := false; shared := true;
     isPrivate := false; workspaceSlug := None |}.

End PrismaDefinition.

(** ** JavaScript strings

    A string is its sequence of code units; [string] holds the code units
    below 256, and the character classes and case mapping below are those
    of JavaScript on that range. *)
Module JsString.

Definition code (a : Ascii.ascii) : nat := Ascii.nat_of_ascii a.

Definition inRange (lo hi : nat) (a : Ascii.ascii) : bool :=
  (lo <=? code a)%nat && (code a <=? hi)%nat.

(** [[A-Z]] *)
Definition isUpper (a : Ascii.ascii) : bool := inRange 65 90 a.

(** [[a-z]] *)
Definition isLower (a : Ascii.ascii) : bool := inRange 97 122 a.

(** [[0-9]] *)
Definition isDigit (a : Ascii.ascii) : bool := inRange 48 57 a.

(** [_] *)
Definition isUnderscore (a : Ascii.ascii) : bool := (code a =? 95)%nat.

(** [-] *)
Definition isDash (a : Ascii.ascii) : bool := (code a =? 45)%nat.

(** [\w], that is [[A-Za-z0-9_]] *)
Definition isWord (a : Ascii.ascii) : bool :=
  isUpper a || isLower a || isDigit a || isUnderscore a.

(** [\s]: tab, line feed, vertical tab, form feed, carriage return,
    space and no-break space. *)
Definition isSpace (a : Ascii.ascii) : bool :=
  inRange 9 13 a || (code a =? 32)%nat || (code a =? 160)%nat.

(** [[^\w\-]] *)
Definition isNeitherWordNorDash (a : Ascii.ascii) : bool :=
  negb (isWord a || isDash a).

(** The lower-case mapping of one code unit: the letters A to Z and the
    Latin-1 capitals (all of 192 to 222 but the multiplication sign). *)
Definition lowerChar (a : Ascii.ascii) : Ascii.ascii :=
  if isUpper a || (inRange 192 222 a && negb (code a =? 215)%nat)
  then Ascii.ascii_of_nat (code a + 32)
  else a.

(** [s.toLowerCase()] *)
Fixpoint toLowerCase (s : string) : string :=
  match s with
  | EmptyString => EmptyString
  | String a rest => String (lowerChar a) (toLowerCase rest)
  end.

(** What a finished run of matching characters becomes: the replacement
    when the run is long enough for the pattern, itself otherwise. *)
Definition flush (min : nat) (r run : string) : string :=
  if (min <=? String.length run)%nat then r else run.

(** [s.replace(/[p]{min,}/g, r)] for a character class [p] and a
    [min] of at least one, with the run of matching characters read so
    far: every maximal run of [min] or more is replaced. *)
Fixpoint replaceRunsFrom (p : Ascii.ascii → bool) (min : nat)
    (r run s : string) : string :=
  match s with
  | EmptyString => flush min r run
  | String a rest =>
      if p a then
        replaceRunsFrom p min r (run +:+ String a EmptyString) rest
      else
        flush min r run
          +:+ String a (replaceRunsFrom p min r EmptyString rest)
  end.

Definition replaceRuns (p : Ascii.ascii → bool) (min : nat)
    (r s : string) : string :=
  replaceRunsFrom p min r EmptyString s.

(** The same replacement for runs of one or more, read with a flag that
    tells whether the previous character matched; the properties of
    [replaceRuns] are proved through it. *)
Fixpoint replaceRunsFlag (p : Ascii.ascii → bool) (r : string)
    (inRun : bool) (s : string) : string :=
  match s with
  | EmptyString => EmptyString
  | String a rest =>
      if p a then
        if inRun then replaceRunsFlag p r true rest
        else r +:+ replaceRunsFlag p r true rest
      else String a (replaceRunsFlag p r false rest)
  end.

(** [s.replace(/[p]/g, r)]: every matching character is replaced. *)
Fixpoint replaceEach (p : Ascii.ascii → bool) (r s : string) : string :=
  match s with
  | EmptyString => EmptyString
  | String a rest =>
      if p a then r +:+ replaceEach p r rest
      else String a (replaceEach p r rest)
  end.

(** [s.replace(/^[p]+/, '')] *)
Fixpoint stripStart (p : Ascii.ascii → bool) (s : string) : string :=
  match s with
  | EmptyString => EmptyString
  | String a rest => if p a then stripStart p rest else s
  end.

(** [s.replace(/[p]+$/, '')] *)
Fixpoint stripEnd (p : Ascii.ascii → bool) (s : string) : string :=
  match s with
  | EmptyString => EmptyString
  | String a rest =>
      match stripEnd p rest with
      | EmptyString => if p a then EmptyString else String a EmptyString
      | kept => String a kept
      end
  end.

(** [s.split(sep)] for a separator of one character. *)
Fixpoint split (sep : Ascii.ascii) (s : string) : list string :=
  match s with
  | EmptyString => [EmptyString]
  | String a rest =>
      if Ascii.eqb a sep then EmptyString :: split sep rest
      else match split sep rest with
           | w :: ws => String a w :: ws
           | [] => [String a EmptyString]
           end
  end.

(** [parts.join(sep)] *)
Definition join (sep : Ascii.ascii) (parts : list string) : string :=
  String.concat (String sep EmptyString) parts.

(** [s.startsWith(prefix)] *)
Definition startsWith (s prefix : string) : bool := String.prefix prefix s.

(** Every character of a string passes a test. *)
Fixpoint allChars (p : Ascii.ascii → bool) (s : string) : bool :=
  match s with
  | EmptyString => true
  | String a rest => p a && allChars p rest
  end.

(** The characters other than a separator. *)
Definition isNot (sep : Ascii.ascii) (a : Ascii.ascii) : bool :=
  negb (Ascii.eqb a sep).

(** The first and the last character pass a test (if there are any). *)
Definition firstChar (p : Ascii.ascii → bool) (s : string) : bool :=
  match s with
  | EmptyString => true
  | String a _ => p a
  end.

Fixpoint lastChar (p : Ascii.ascii → bool) (s : string) : bool :=
  match s with
  | EmptyString => true
  | String a EmptyString => p a
  | String _ rest => lastChar p rest
  end.

(** No two characters in a row both pass a test. *)
Fixpoint noTwoInARow (p : Ascii.ascii → bool) (s : string) : bool :=
  match s with
  | EmptyString => true
  | String a rest =>
      negb (p a && negb (firstChar (λ b, negb (p b)) rest))
      && noTwoInARow p rest
  end.

Definition comma : Ascii.ascii := Ascii.ascii_of_nat 44.
Definition slash : Ascii.ascii := Ascii.ascii_of_nat 47.
Definition dash : Ascii.ascii := Ascii.ascii_of_nat 45.
Definition space : Ascii.ascii := Ascii.ascii_of_nat 32.
Definition lineFeed : string := String (Ascii.ascii_of_nat 10) EmptyString.

End JsString.

(** ** Schema introspection

    relations.test.ts drives [new Introspector(connector).introspect(name)]
    and snapshots the result.  [Introspector], [PostgresConnector] and the
    SDL inference they call live in prisma-db-introspection/src, outside
    the files at hand, so the pipeline below is written from the
    specification: Connector, Schema Model Builder, Relation Classifier,
    SDL Emitter. *)
Module Introspection.
Import JsString.

(** *** Data model *)

(** Modelled from the spec: the fixed set of scalar types a native
    column type is mapped to, with the catch-all marker for unknown
    native types (the test file has no such declaration). *)
Inductive ScalarType :=
| TString | TInt | TFloat | TBoolean | TDateTime | TJson | TEnum | TId
| TUnsupported.

(** Modelled from the spec: a Column has a name, a scalar type, a
    nullability flag, an is-list flag and an optional default value. *)
Record Column := {
  colName : string;
  colType : ScalarType;
  colNullable : bool;
  colIsList : bool;
  colDefault : option string;
}.

(** Modelled from the spec: the update and delete actions of a foreign
    key. *)
Inductive FkAction := Cascade | SetNull | Restrict | NoAction.

(** Modelled from the spec: a Foreign Key has a source table and source
    columns, a target table and target columns, and its two actions. *)
Record ForeignKey := {
  fkSourceTable : string;
  fkSourceColumns : list string;
  fkTargetTable : string;
  fkTargetColumns : list string;
  fkOnUpdate : FkAction;
  fkOnDelete : FkAction;
}.

#[global] Instance FkAction_eq_dec : EqDecision FkAction.
Proof. solve_decision. Defined.

#[global] Instance ForeignKey_eq_dec : EqDecision ForeignKey.
Proof. solve_decision. Defined.

(** Modelled from the spec: a Table has a name, an ordered sequence of
    columns, an optional primary key (its column names, in order) and
    its foreign keys.  The foreign keys are kept as the connector
    discovered them, dangling ones included: section 4.3 counts the
    foreign keys a table has, and section 4.4 orders the relation
    fields as the foreign keys were discovered. *)
Record Table := {
  tblName : string;
  tblColumns : list Column;
  tblPrimaryKey : option (list string);
  tblForeignKeys : list ForeignKey;
}.

(** *** Connector *)

(** Modelled from the spec: a column row of the connector, with the
    native type still unmapped. *)
Record RawColumn := {
  rcName : string;
  rcNativeType : string;
  rcIsArray : bool;
  rcNullable : bool;
  rcDefault : option string;
}.

(** Modelled from the spec: a foreign-key constraint row of the table
    it is listed under. *)
Record RawForeignKey := {
  rfColumns : list string;
  rfTargetTable : string;
  rfTargetColumns : list string;
  rfOnUpdate : FkAction;
  rfOnDelete : FkAction;
}.

(** Modelled from the spec: what the four metadata queries return for
    one table: its columns in column order, its primary-key columns and
    its foreign keys in the order the database lists them. *)
Record RawTable := {
  rtName : string;
  rtColumns : list RawColumn;
  rtPrimaryKey : list string;
  rtForeignKeys : list RawForeignKey;
}.

(** Modelled from the spec: the connector either fails (connection kind
    or query kind, with the underlying cause) or lists the tables of the
    target schema, in the database's own iteration order. *)
Inductive ConnectorAnswer :=
| ConnectionFailed (cause : string)
| QueryFailed (cause : string)
| Discovered (rows : list RawTable).

(** Modelled from the spec: the missing [PostgresConnector], built from
    the connection details: it answers for a schema name. *)
Definition Connector := string → ConnectorAnswer.

(** Modelled from the spec: the missing class [Introspector], built as
    [new Introspector(connector)]. *)
Record Introspector := { connector : Connector }.

(** *** Emitted document *)

(** Modelled from the spec: a field is of a scalar type or refers to an
    emitted type by name. *)
Inductive FieldType :=
| Scalar (t : ScalarType)
| Reference (typeName : string).

(** Modelled from the spec: where a field comes from: a scalar column,
    the owning end or the back-reference end of an inline relation, or
    one end of a table-based relation (the junction table, the foreign
    key to the type that carries the field, the foreign key to the type
    the field points to). *)
Inductive FieldOrigin :=
| OfColumn (column : string)
| OfInline (fk : ForeignKey)
| OfBackReference (fk : ForeignKey)
| OfJunction (junction : string) (near far : ForeignKey).

(** Modelled from the spec: a field declaration of a type block. *)
Record Field := {
  fldName : string;
  fldType : FieldType;
  fldList : bool;
  fldNullable : bool;
  fldIdentity : bool;
  fldOrigin : FieldOrigin;
}.

(** Modelled from the spec: one type block per emitted table. *)
Record TypeBlock := {
  blkName : string;
  blkTable : string;
  blkFields : list Field;
}.

(** Modelled from the spec: the tagged variant attached to foreign-key
    edges by the classifier. *)
Inductive Relation :=
| InlineRelation (fk : ForeignKey)
| TableRelation (junction : string) (fk1 fk2 : ForeignKey).

(** Modelled from the spec: the fatal conditions of the error
    taxonomy. *)
Inductive Failure :=
| ConnectionError (cause : string)
| QueryError (cause : string)
| EmptySchema (schemaName : string)
| NamingCollision.

(** [Promise<{ numTables: number; sdl: string }>] in relations.test.ts. *)
Record IntrospectionResult := {
  numTables : nat;
  sdl : string;
}.

(** Modelled from the spec: introspection halts with a single failure or
    returns its result. *)
Inductive Outcome :=
| Fatal (failure : Failure)
| Introspected (result : IntrospectionResult).

#[global] Instance ScalarType_eq_dec : EqDecision ScalarType.
Proof. solve_decision. Defined.
#[global] Instance FieldType_eq_dec : EqDecision FieldType.
Proof. solve_decision. Defined.
#[global] Instance FieldOrigin_eq_dec : EqDecision FieldOrigin.
Proof. solve_decision. Defined.
#[global] Instance Field_eq_dec : EqDecision Field.
Proof. solve_decision. Defined.

(** Modelled from the spec: what the specification leaves to the
    database engine behind the connector: the mapping of its native
    column types to the scalar types. *)
Record Conventions := {
  scalarTypeOf : string → ScalarType;
}.

(** *** Names *)

Definition isAlnum (a : Ascii.ascii) : bool :=
  isUpper a || isLower a || isDigit a.

(** [s.split(/[p]/)] for a character class [p]. *)
Fixpoint splitBy (p : Ascii.ascii → bool) (s : string) : list string :=
  match s with
  | EmptyString => [EmptyString]
  | String a rest =>
      if p a then EmptyString :: splitBy p rest
      else match splitBy p rest with
           | w :: ws => String a w :: ws
           | [] => [String a EmptyString]
           end
  end.

(** Modelled from the spec: the words of a table or column identifier:
    its runs of letters and digits. *)
Definition segments (identifier : string) : list string :=
  filter (λ w, w ≠ EmptyString)
    (splitBy (λ a, negb (isAlnum a)) identifier).

Definition upcase (a : Ascii.ascii) : Ascii.ascii :=
  if isLower a then Ascii.ascii_of_nat (code a - 32) else a.

Definition capitalize (s : string) : string :=
  match s with
  | EmptyString => EmptyString
  | String a rest => String (upcase a) rest
  end.

(** Modelled from the spec: the casing rules: every word capitalised
    for a type name, every word but the first for a field name. *)
Definition pascalCase (ws : list string) : string :=
  String.concat EmptyString (capitalize <$> ws).

Definition camelCase (ws : list string) : string :=
  match ws with
  | [] => EmptyString
  | w :: rest => w +:+ pascalCase rest
  end.

(** Modelled from the spec: the words of a column name without a
    trailing [id]. *)
Definition stem (column : string) : list string :=
  match reverse (segments column) with
  | last :: (w :: ws) =>
      if String.eqb last "id" then reverse (w :: ws)
      else segments column
  | _ => segments column
  end.

(** Modelled from the spec: the disambiguating suffix derived from the
    column names. *)
Definition suffix (columns : list string) (ambiguous : bool) : string :=
  if ambiguous then "By" +:+ pascalCase (columns ≫= stem)
  else EmptyString.

(** Modelled from the spec: the generated type name of a table. *)
Definition typeName (table : string) : string :=
  pascalCase (segments table).

(** Modelled from the spec: the field name of a scalar column. *)
Definition scalarFieldName (column : string) : string :=
  camelCase (segments column).

(** *** Two listings of one schema *)







(** *** Rendering *)

Definition backslash : Ascii.ascii := Ascii.ascii_of_nat 92.
Definition doubleQuote : Ascii.ascii := Ascii.ascii_of_nat 34.
Definition colon : Ascii.ascii := Ascii.ascii_of_nat 58.
Definition lineBreak : Ascii.ascii := Ascii.ascii_of_nat 10.

(** Modelled from the spec: a character of an underlying name inside a
    string of the SDL text: a line break, a double quote and a
    backslash are written with a backslash, so that the text stays
    parseable line by line. *)
Definition escapeChar (a : Ascii.ascii) : string :=
  if Ascii.eqb a lineBreak
  then String backslash (String (Ascii.ascii_of_nat 110) EmptyString)
  else if Ascii.eqb a doubleQuote
  then String backslash (String doubleQuote EmptyString)
  else if Ascii.eqb a backslash
  then String backslash (String backslash EmptyString)
  else String a EmptyString.

Fixpoint escape (s : string) : string :=
  match s with
  | EmptyString => EmptyString
  | String a rest => escapeChar a +:+ escape rest
  end.

(** The name an escaped text stands for. *)
Fixpoint unescape (s : string) : string :=
  match s with
  | EmptyString => EmptyString
  | String a rest =>
      if Ascii.eqb a backslash then
        match rest with
        | String c rest' =>
            String (if Ascii.eqb c (Ascii.ascii_of_nat 110)
                    then lineBreak else c)
              (unescape rest')
        | EmptyString => EmptyString
        end
      else String a (unescape rest)
  end.

Definition quoted (s : string) : string :=
  String doubleQuote (escape s) +:+ String doubleQuote EmptyString.

Definition renderNames (names : list string) : string :=
  "[" +:+ String.concat ", " (quoted <$> names) +:+ "]".

(** Modelled from the spec: the text of a scalar type; an unsupported
    native type is passed through as a string and flagged. *)
Definition renderScalarType (t : ScalarType) : string :=
  match t with
  | TString => "String" | TInt => "Int" | TFloat => "Float"
  | TBoolean => "Boolean" | TDateTime => "DateTime" | TJson => "Json"
  | TEnum => "Enum" | TId => "ID"
  | TUnsupported => "String"
  end.

Definition renderAction (a : FkAction) : string :=
  match a with
  | Cascade => "CASCADE" | SetNull => "SET_NULL"
  | Restrict => "RESTRICT" | NoAction => "NO_ACTION"
  end.

Definition baseType (f : Field) : string :=
  match fldType f with
  | Scalar t => renderScalarType t
  | Reference n => n
  end.

(** Modelled from the spec: the type of a field: a list, an optional
    value or a required one. *)
Definition renderFieldType (f : Field) : string :=
  if fldList f then "[" +:+ baseType f +:+ "!]!"
  else if fldNullable f then baseType f
  else baseType f +:+ "!".

Definition renderForeignKey (fk : ForeignKey) : string :=
  "table: " +:+ quoted (fkSourceTable fk)
  +:+ ", columns: " +:+ renderNames (fkSourceColumns fk)
  +:+ ", references: " +:+ quoted (fkTargetTable fk)
  +:+ renderNames (fkTargetColumns fk)
  +:+ ", onUpdate: " +:+ renderAction (fkOnUpdate fk)
  +:+ ", onDelete: " +:+ renderAction (fkOnDelete fk).

(** Modelled from the spec: the annotation of a type block, which keeps
    the name of the table, up to the opening brace. *)
Definition tableAnnotation (table : string) : string :=
  "@table(name: " +:+ quoted table +:+ ") {".

(** Modelled from the spec: the annotations that keep the underlying
    column and constraint names: the column of a scalar field whose
    name differs from it, the foreign key of an inline relation, the
    junction table and both foreign keys of a table-based one. *)
Definition inlineAnnotation (fk : ForeignKey) : string :=
  "@inline(" +:+ renderForeignKey fk +:+ ")".

Definition backReferenceAnnotation (fk : ForeignKey) : string :=
  "@backReference(" +:+ renderForeignKey fk +:+ ")".

Definition relationTableAnnotation (junction : string)
    (near far : ForeignKey) : string :=
  "@relationTable(name: " +:+ quoted junction
  +:+ ", near: {" +:+ renderForeignKey near
  +:+ "}, far: {" +:+ renderForeignKey far +:+ "})".

Definition directives (f : Field) : list string :=
  match fldOrigin f with
  | OfColumn column =>
      (if fldIdentity f then ["@id"] else [])
      ++ (if decide (fldName f = column) then []
          else ["@column(name: " +:+ quoted column +:+ ")"])
      ++ (if decide (fldType f = Scalar TUnsupported)
          then ["@unsupported"] else [])
  | OfInline fk => [inlineAnnotation fk]
  | OfBackReference fk => [backReferenceAnnotation fk]
  | OfJunction junction near far =>
      [relationTableAnnotation junction near far]
  end.

Definition fieldAnnotation (f : Field) : string :=
  String.concat " " (directives f).

Definition renderField (f : Field) : string :=
  "  " +:+ fldName f +:+ ": " +:+ renderFieldType f
  +:+ match fieldAnnotation f with
      | EmptyString => EmptyString
      | annotation => " " +:+ annotation
      end.

(** Modelled from the spec: the lines of a type block. *)
Definition blockLines (b : TypeBlock) : list string :=
  ("type " +:+ blkName b +:+ " " +:+ tableAnnotation (blkTable b))
  :: (renderField <$> blkFields b) ++ ["}"].

Definition unlines (lines : list string) : string :=
  String.concat EmptyString ((λ l, l +:+ lineFeed) <$> lines).

(** Modelled from the spec: the SDL text of a document. *)
Definition render (doc : list TypeBlock) : string :=
  unlines (doc ≫= blockLines).

(** The generated names of a field and of a type block are made of
    letters and digits. *)
Definition plainField (f : Field) : Prop :=
  allChars isAlnum (fldName f) = true
  ∧ allChars isAlnum (baseType f) = true.

Definition plainBlock (b : TypeBlock) : Prop :=
  allChars isAlnum (blkName b) = true ∧ Forall plainField (blkFields b).

(** *** What an SDL text declares *)

(** A field declaration as it stands in the text: its name, the text
    of its type and its annotations. *)
Record ReadField := {
  rfName : string;
  rfType : string;
  rfAnnotation : string;
}.

(** A type block as it stands in the text: the name of the type, the
    annotation that follows it and the fields. *)
Record ReadBlock := {
  rbName : string;
  rbAnnotation : string;
  rbFields : list ReadField;
}.

Inductive Line :=
| Header (name annotation : string)
| Declaration (field : ReadField)
| Other.

Fixpoint stripPrefix (prefix s : string) : option string :=
  match prefix, s with
  | EmptyString, _ => Some s
  | String a prefix', String b s' =>
      if Ascii.eqb a b then stripPrefix prefix' s' else None
  | String _ _, EmptyString => None
  end.

(** The characters before the first [c], and those after it. *)
Fixpoint takeUntil (c : Ascii.ascii) (s : string) : string :=
  match s with
  | EmptyString => EmptyString
  | String a rest =>
      if Ascii.eqb a c then EmptyString else String a (takeUntil c rest)
  end.

Fixpoint dropUntil (c : Ascii.ascii) (s : string) : string :=
  match s with
  | EmptyString => EmptyString
  | String a rest => if Ascii.eqb a c then rest else dropUntil c rest
  end.

(** One line of SDL text: [type Name annotation], a field
    [  name: Type annotations], or anything else. *)
Definition readLine (line : string) : Line :=
  match stripPrefix "type " line with
  | Some rest => Header (takeUntil space rest) (dropUntil space rest)
  | None =>
      match stripPrefix "  " line with
      | Some rest =>
          let typed :=
            default EmptyString (stripPrefix " " (dropUntil colon rest)) in
          Declaration {| rfName := takeUntil colon rest;
                         rfType := takeUntil space typed;
                         rfAnnotation := dropUntil space typed |}
      | None => Other
      end
  end.

(** The field declarations at the head of the lines. *)
Fixpoint readFields (lines : list string) : list ReadField :=
  match lines with
  | [] => []
  | line :: rest =>
      match readLine line with
      | Declaration f => f :: readFields rest
      | _ => []
      end
  end.

Fixpoint readBlocks (lines : list string) : list ReadBlock :=
  match lines with
  | [] => []
  | line :: rest =>
      match readLine line with
      | Header name annotation =>
          {| rbName := name; rbAnnotation := annotation;
             rbFields := readFields rest |} :: readBlocks rest
      | _ => readBlocks rest
      end
  end.

(** The type blocks an SDL text declares, read line by line. *)
Definition readSdl (text : string) : list ReadBlock :=
  readBlocks (split lineBreak text).





(** A field and a type block as the text shows them. *)
Definition readField (f : Field) : ReadField :=
  {| rfName := fldName f;
     rfType := renderFieldType f;
     rfAnnotation := fieldAnnotation f |}.

Definition readBlock (b : TypeBlock) : ReadBlock :=
  {| rbName := blkName b;
     rbAnnotation := tableAnnotation (blkTable b);
     rbFields := readField <$> blkFields b |}.

Section Pipeline.
Variable conv : Conventions.

(** *** Schema Model Builder *)

(** Modelled from the spec: a raw column with its native type
    normalised. *)
Definition buildColumn (c : RawColumn) : Column :=
  {| colName := rcName c;
     colType := scalarTypeOf conv (rcNativeType c);
     colNullable := rcNullable c;
     colIsList := rcIsArray c;
     colDefault := rcDefault c |}.

(** Modelled from the spec: the foreign key of the data model for a
    constraint row of [table]. *)
Definition buildForeignKey (table : string) (fk : RawForeignKey)
  : ForeignKey :=
  {| fkSourceTable := table;
     fkSourceColumns := rfColumns fk;
     fkTargetTable := rfTargetTable fk;
     fkTargetColumns := rfTargetColumns fk;
     fkOnUpdate := rfOnUpdate fk;
     fkOnDelete := rfOnDelete fk |}.

(** Modelled from the spec: the table of the data model for one raw
    table, its foreign keys in the order of discovery. *)
Definition collectTable (r : RawTable) : Table :=
  {| tblName := rtName r;
     tblColumns := buildColumn <$> rtColumns r;
     tblPrimaryKey :=
       match rtPrimaryKey r with
       | [] => None
       | pk => Some pk
       end;
     tblForeignKeys := buildForeignKey (rtName r) <$> rtForeignKeys r |}.

(** Modelled from the spec: the Schema Model Builder: the tables by
    name (a name is unique within a schema), which forgets the order
    the database iterated them in. *)
Definition buildSchema (rows : list RawTable) : gmap string Table :=
  list_to_map ((λ r, (rtName r, collectTable r)) <$> rows).

(** Modelled from the spec: the tables in the one order that does not
    depend on the database's iteration: by name. *)
Definition tableNames (schema : gmap string Table) : list string :=
  elements (dom schema).

Definition tables (schema : gmap string Table) : list Table :=
  omap (λ name, schema !! name) (tableNames schema).

(** Modelled from the spec: the named columns exist in the table. *)
Definition hasColumns (t : Table) (columns : list string) : bool :=
  forallb (λ c, bool_decide (c ∈ colName <$> tblColumns t)) columns.

(** Modelled from the spec: a foreign key is in the relation graph
    when the tables and columns it names exist; a dangling one is
    left out. *)
Definition resolves (schema : gmap string Table) (fk : ForeignKey)
  : bool :=
  match schema !! fkSourceTable fk, schema !! fkTargetTable fk with
  | Some source, Some target =>
      hasColumns source (fkSourceColumns fk)
      && hasColumns target (fkTargetColumns fk)
  | _, _ => false
  end.

(** Modelled from the spec: the foreign keys a table owns in the
    relation graph, in the order of discovery. *)
Definition relationGraph (schema : gmap string Table) (t : Table)
  : list ForeignKey :=
  filter (λ fk, resolves schema fk = true) (tblForeignKeys t).


(** *** Relation Classifier *)

(** Modelled from the spec: the foreign-key columns of a table. *)
Definition fkColumns (t : Table) : list string :=
  tblForeignKeys t ≫= fkSourceColumns.

(** Modelled from the spec: a required column is NOT NULL and has no
    default. *)
Definition required (c : Column) : bool :=
  negb (colNullable c) && negb (bool_decide (is_Some (colDefault c))).

(** Modelled from the spec: a required column other than the
    foreign-key columns (an auto-generated identity column has a
    default, so it is not required). *)
Definition requiredExtra (t : Table) (c : Column) : bool :=
  required c && negb (bool_decide (colName c ∈ fkColumns t)).

(** Modelled from the spec: both foreign keys are NOT NULL. *)
Definition keysNotNull (t : Table) : bool :=
  forallb
    (λ c, implb (bool_decide (colName c ∈ fkColumns t))
            (negb (colNullable c)))
    (tblColumns t).

(** Modelled from the spec: the foreign keys are the table's only
    columns. *)
Definition keysOnly (t : Table) : bool :=
  forallb (λ c, bool_decide (colName c ∈ fkColumns t)) (tblColumns t).

(** Modelled from the spec: a foreign key of the relation graph
    points at the table.  Such a foreign key is rendered with a field
    on the type of its target, so the target has a type. *)
Definition referenced (schema : gmap string Table) (table : string)
  : bool :=
  existsb
    (λ t, existsb
            (λ fk, resolves schema fk
                   && bool_decide (fkTargetTable fk = table))
            (tblForeignKeys t))
    (tables schema).

(** Modelled from the spec: a junction table has exactly two foreign
    keys, both in the relation graph and both NOT NULL or the table's
    only columns, no required column besides them, and no other
    purpose: no foreign key points at it. *)
Definition isJunctionTable (schema : gmap string Table) (t : Table)
  : bool :=
  bool_decide (length (tblForeignKeys t) = 2)
  && forallb (resolves schema) (tblForeignKeys t)
  && negb (existsb (requiredExtra t) (tblColumns t))
  && (keysNotNull t || keysOnly t)
  && negb (referenced schema (tblName t)).

(** Modelled from the spec: the relations a table gives rise to: one
    table-based relation for a junction table, one inline relation per
    foreign key of the relation graph otherwise. *)
Definition classifyTable (schema : gmap string Table) (t : Table)
  : list Relation :=
  if isJunctionTable schema t then
    match tblForeignKeys t with
    | [fk1; fk2] => [TableRelation (tblName t) fk1 fk2]
    | _ => []
    end
  else InlineRelation <$> relationGraph schema t.

(** Modelled from the spec: the classifier's relation list, from a
    single pass over the tables, the foreign keys of each table in
    the order of discovery. *)
Definition classify (schema : gmap string Table) : list Relation :=
  tables schema ≫= classifyTable schema.

(** *** SDL Emitter *)

(** Modelled from the spec: names need a suffix derived from the
    columns when two or more foreign keys of the table of [fk]
    reference the target of [fk], or when [fk] references its own
    table, whose type then carries both ends. *)
Definition ambiguous (schema : gmap string Table) (fk : ForeignKey)
  : bool :=
  bool_decide (fkSourceTable fk = fkTargetTable fk)
  || match schema !! fkSourceTable fk with
     | Some t =>
         bool_decide
           (1 < length (filter (λ g, fkTargetTable g = fkTargetTable fk)
                          (relationGraph schema t)))
     | None => false
     end.

(** Modelled from the spec: the inline field is nullable if a column
    of the foreign key is nullable. *)
Definition fkNullable (schema : gmap string Table) (fk : ForeignKey)
  : bool :=
  match schema !! fkSourceTable fk with
  | Some t =>
      existsb
        (λ c, bool_decide (colName c ∈ fkSourceColumns fk)
              && colNullable c)
        (tblColumns t)
  | None => false
  end.

(** Modelled from the spec: the primary key is the uniqueness
    constraint of the data model, so a foreign key is unique when its
    columns cover the primary key of its table. *)
Definition fkUnique (schema : gmap string Table) (fk : ForeignKey)
  : bool :=
  match schema !! fkSourceTable fk with
  | Some t =>
      match tblPrimaryKey t with
      | Some pk =>
          forallb (λ c, bool_decide (c ∈ fkSourceColumns fk)) pk
      | None => false
      end
  | None => false
  end.

(** Modelled from the spec: step 4 of section 4.3: the table of [fk]
    has exactly two foreign keys and a required extra column; its two
    relations are inline and one-to-many. *)
Definition keptJunction (schema : gmap string Table) (fk : ForeignKey)
  : bool :=
  match schema !! fkSourceTable fk with
  | Some t =>
      bool_decide (length (tblForeignKeys t) = 2)
      && existsb (requiredExtra t) (tblColumns t)
  | None => false
  end.

(** Modelled from the spec: uniqueness constraints indicate a
    one-to-one relation. *)
Definition oneToOne (schema : gmap string Table) (fk : ForeignKey)
  : bool :=
  fkUnique schema fk && negb (keptJunction schema fk).

Definition inlineFieldName (fk : ForeignKey) : string :=
  match fkSourceColumns fk with
  | [] => camelCase (segments (fkTargetTable fk))
  | columns => camelCase (columns ≫= stem)
  end.

Definition backFieldName (schema : gmap string Table) (fk : ForeignKey)
  : string :=
  camelCase (segments (fkSourceTable fk)) +:+ "s"
  +:+ suffix (fkSourceColumns fk) (ambiguous schema fk).

Definition listFieldName (near far : ForeignKey) : string :=
  camelCase (segments (fkTargetTable far)) +:+ "s"
  +:+ suffix (fkSourceColumns far)
        (bool_decide (fkTargetTable near = fkTargetTable far)).

(** Modelled from the spec: the field of the owning table: its type is
    the target's generated type, it is never a list, and it is
    nullable if the foreign-key column is. *)
Definition inlineField (schema : gmap string Table) (fk : ForeignKey)
  : Field :=
  {| fldName := inlineFieldName fk;
     fldType := Reference (typeName (fkTargetTable fk));
     fldList := false;
     fldNullable := fkNullable schema fk;
     fldIdentity := false;
     fldOrigin := OfInline fk |}.

(** Modelled from the spec: the matching back-reference on the target
    table: a list field, or a singular (optional) one for a one-to-one
    relation. *)
Definition backReferenceField (schema : gmap string Table)
    (fk : ForeignKey) : Field :=
  {| fldName := backFieldName schema fk;
     fldType := Reference (typeName (fkSourceTable fk));
     fldList := negb (oneToOne schema fk);
     fldNullable := oneToOne schema fk;
     fldIdentity := false;
     fldOrigin := OfBackReference fk |}.

(** Modelled from the spec: the list-typed field a table-based
    relation puts on the table [near] references, pointing at the
    table [far] references. *)
Definition listField (junction : string) (near far : ForeignKey)
  : Field :=
  {| fldName := listFieldName near far;
     fldType := Reference (typeName (fkTargetTable far));
     fldList := true;
     fldNullable := false;
     fldIdentity := false;
     fldOrigin := OfJunction junction near far |}.

(** Modelled from the spec: the fields a relation contributes to the
    type of table [table]: both ends are represented, each on the type
    of its own table. *)
Definition relationFields (schema : gmap string Table) (table : string)
    (r : Relation) : list Field :=
  match r with
  | InlineRelation fk =>
      (if decide (fkSourceTable fk = table)
       then [inlineField schema fk] else [])
      ++ (if decide (fkTargetTable fk = table)
          then [backReferenceField schema fk] else [])
  | TableRelation junction fk1 fk2 =>
      (if decide (fkTargetTable fk1 = table)
       then [listField junction fk1 fk2] else [])
      ++ (if decide (fkTargetTable fk2 = table)
          then [listField junction fk2 fk1] else [])
  end.

(** Modelled from the spec: primary-key columns are marked. *)
Definition isPrimaryKeyColumn (t : Table) (c : Column) : bool :=
  match tblPrimaryKey t with
  | Some pk => bool_decide (colName c ∈ pk)
  | None => false
  end.

(** Modelled from the spec: the field of a scalar column. *)
Definition columnField (t : Table) (c : Column) : Field :=
  {| fldName := scalarFieldName (colName c);
     fldType := Scalar (colType c);
     fldList := colIsList c;
     fldNullable := colNullable c;
     fldIdentity := isPrimaryKeyColumn t c;
     fldOrigin := OfColumn (colName c) |}.

(** Modelled from the spec: the scalar columns of a table, in column
    order; a column of a foreign key of the relation graph is
    rendered by its relation field. *)
Definition scalarColumns (schema : gmap string Table) (t : Table)
  : list Column :=
  filter
    (λ c, colName c ∉ relationGraph schema t ≫= fkSourceColumns)
    (tblColumns t).

(** Modelled from the spec: the type block of a table: its scalar
    columns in column order, then the relation fields in the order of
    the classifier's relation list. *)
Definition emitTable (schema : gmap string Table)
    (relations : list Relation) (t : Table) : TypeBlock :=
  {| blkName := typeName (tblName t);
     blkTable := tblName t;
     blkFields :=
       (columnField t <$> scalarColumns schema t)
       ++ (relations ≫= relationFields schema (tblName t)) |}.

(** Modelled from the spec: one type block per table that is not
    elided. *)
Definition emit (schema : gmap string Table)
    (relations : list Relation) : list TypeBlock :=
  emitTable schema relations
    <$> filter (λ t, isJunctionTable schema t = false) (tables schema).

(** Modelled from the spec: the pipeline from the connector's rows to
    the emitted document: builder, classifier, emitter. *)
Definition document (rows : list RawTable) : list TypeBlock :=
  emit (buildSchema rows) (classify (buildSchema rows)).

(** *** Introspector *)

(** Modelled from the spec: a naming collision that the naming rules
    leave unresolved: two types of one name, or two fields of one name
    on a type. *)
Definition collisionFree (doc : list TypeBlock) : bool :=
  bool_decide (NoDup (blkName <$> doc))
  && forallb (λ b, bool_decide (NoDup (fldName <$> blkFields b))) doc.

(** Modelled from the spec: the missing method
    [Introspector.introspect(schemaName)]: the pipeline run once;
    connector failures, an empty schema and an unresolved naming
    collision are fatal, otherwise the SDL text and the count of
    discovered tables are returned. *)
Definition introspect (i : Introspector) (schemaName : string)
  : Outcome :=
  match connector i schemaName with
  | ConnectionFailed cause => Fatal (ConnectionError cause)
  | QueryFailed cause => Fatal (QueryError cause)
  | Discovered rows =>
      let schema := buildSchema rows in
      if decide (size schema = 0) then Fatal (EmptySchema schemaName)
      else if collisionFree (document rows) then
        Introspected {| numTables := size schema;
                        sdl := render (document rows) |}
      else Fatal NamingCollision
  end.

End Pipeline.

(** *** The test schemas *)

Definition nativeScalarType (native : string) : ScalarType :=
  if bool_decide (native ∈ ["text"; "varchar"; "char"]) then TString
  else if bool_decide (native ∈ ["int"; "int4"; "integer"; "serial"])
  then TInt
  else if bool_decide (native ∈ ["float8"; "numeric"; "real"]) then TFloat
  else if bool_decide (native ∈ ["bool"; "boolean"]) then TBoolean
  else if bool_decide (native ∈ ["timestamp"; "timestamptz"])
  then TDateTime
  else if bool_decide (native ∈ ["json"; "jsonb"]) then TJson
  else if bool_decide (native = "uuid") then TId
  else TUnsupported.

(** Modelled from the spec: the native types of the database of the
    tests. *)
Definition pgConventions : Conventions :=
  {| scalarTypeOf := nativeScalarType |}.

Definition serialId : RawColumn :=
  {| rcName := "id"; rcNativeType := "serial"; rcIsArray := false;
     rcNullable := false; rcDefault := Some "nextval" |}.

Definition textNotNull (name : string) : RawColumn :=
  {| rcName := name; rcNativeType := "text"; rcIsArray := false;
     rcNullable := false; rcDefault := None |}.

Definition intColumn (name : string) (nullable : bool) : RawColumn :=
  {| rcName := name; rcNativeType := "int"; rcIsArray := false;
     rcNullable := nullable; rcDefault := None |}.

(** [column int REFERENCES target (id) ON UPDATE CASCADE], with the
    given delete action. *)
Definition references (column target : string) (onDelete : FkAction)
  : RawForeignKey :=
  {| rfColumns := [column]; rfTargetTable := target;
     rfTargetColumns := ["id"]; rfOnUpdate := Cascade;
     rfOnDelete := onDelete |}.

Definition simpleTable (name payload : string) : RawTable :=
  {| rtName := name; rtColumns := [serialId; textNotNull payload];
     rtPrimaryKey := ["id"]; rtForeignKeys := [] |}.

(** The table [bill_product] of the first two tests. *)
Definition billProduct (extra : list RawColumn) : RawTable :=
  {| rtName := "bill_product";
     rtColumns :=
       [intColumn "bill_id" true; intColumn "product_id" true] ++ extra;
     rtPrimaryKey := [];
     rtForeignKeys :=
       [references "bill_id" "bill" Cascade;
        references "product_id" "product" NoAction] |}.

(** 'relation with relation table' *)
Definition relationTableRows : list RawTable :=
  [simpleTable "product" "product"; simpleTable "bill" "bill";
   billProduct []].

(** 'relation with relation table with extra column' *)
Definition extraColumnRows : list RawTable :=
  [simpleTable "product" "product"; simpleTable "bill" "bill";
   billProduct [textNotNull "some_other_column"]].

(** The table [bill] of the last two tests. *)
Definition billWithProduct (nullable : bool) : RawTable :=
  {| rtName := "bill";
     rtColumns :=
       [serialId; textNotNull "bill"; intColumn "product_id" nullable];
     rtPrimaryKey := ["id"];
     rtForeignKeys := [references "product_id" "product" NoAction] |}.

(** 'relation with inline relation column' and
    'relation with inline relation column NOT NULL' *)
Definition inlineRows (nullable : bool) : list RawTable :=
  [simpleTable "product" "description"; billWithProduct nullable].

(** The connector of the tests, frozen at one answer. *)
Definition fixedConnector (rows : list RawTable) : Introspector :=
  {| connector := λ _, Discovered rows |}.

(** *** Further schemas *)













(** A tree of nodes, each with an optional parent. *)
Definition nodeTable (target : string) : RawTable :=
  {| rtName := "node";
     rtColumns :=
       [serialId; textNotNull "label"; intColumn "parent_id" true];
     rtPrimaryKey := ["id"];
     rtForeignKeys :=
       [{| rfColumns := ["parent_id"]; rfTargetTable := "node";
           rfTargetColumns := [target]; rfOnUpdate := Cascade;
           rfOnDelete := NoAction |}] |}.

Definition nodeRows : list RawTable := [nodeTable "id"].

(** The same tree where the parent refers to a column [uid] that the
    table does not have. *)
Definition danglingNodeRows : list RawTable := [nodeTable "uid"].

(** The foreign key of the data model for [references]. *)
Definition foreignKey (table column target : string) (onDelete : FkAction)
  : ForeignKey :=
  {| fkSourceTable := table; fkSourceColumns := [column];
     fkTargetTable := target; fkTargetColumns := ["id"];
     fkOnUpdate := Cascade; fkOnDelete := onDelete |}.

(** The outline of a text: per type its name and, per field, the name
    and the text of the type. *)
Definition outline (text : string)
  : list (string * list (string * string)) :=
  (λ b, (rbName b, (λ f, (rfName f, rfType f)) <$> rbFields b))
    <$> readSdl text.

(** The run of the tests on given rows, and the text and the result
    it returns when it succeeds. *)
Definition runOn (rows : list RawTable) : Outcome :=
  introspect pgConventions (fixedConnector rows) "DatabaseIntrospector".

Definition textOf (rows : list RawTable) : string :=
  render (document pgConventions rows).

Definition resultOf (rows : list RawTable) : IntrospectionResult :=
  {| numTables := length rows; sdl := textOf rows |}.

(** The table of the data model for a row. *)
Definition tableOf (r : RawTable) : Table := collectTable pgConventions r.

End Introspection.

(** ** commands/deploy: the helpers below the [Deploy] class *)
Module DeployCommand.
Import JsString.

(** [isValidProjectName(projectName)]: the test of the pattern that
    asks for a capital A to Z at the start, followed by a group of any
    characters; the group matches the empty string, so only the first
    character decides. *)
Definition isValidProjectName (projectName : string) : bool :=
  match projectName with
  | EmptyString => false
  | String a _ => isUpper a
  end.

(** [slugify(text)] *)
Definition slugify (text : string) : string :=
  stripEnd isDash
    (stripStart isDash
       (replaceRuns isDash 2 "-"
          (replaceRuns isNeitherWordNorDash 1 EmptyString
             (replaceRuns isSpace 1 "-" (toLowerCase text))))).

(** The text before the dashes at both ends are stripped: lower case,
    runs of white space turned into a dash, everything but word
    characters and dashes removed, runs of dashes collapsed. *)
Definition collapsed (text : string) : string :=
  replaceRuns isDash 2 "-"
    (replaceRuns isNeitherWordNorDash 1 EmptyString
       (replaceRuns isSpace 1 "-" (toLowerCase text))).

(** The characters a slug is made of. *)
Definition isSlugChar (a : Ascii.ascii) : bool :=
  isLower a || isDigit a || isUnderscore a || isDash a.

(** A whole number in a template literal: its decimal digits. *)
Definition decimal (n : nat) : string := pretty.pretty (N.of_nat n).

(** [getSillyName()], given the name [sillyname()] made up and the whole
    number [Math.round(Math.random() * 1000)]. *)
Definition getSillyName (sillyname : string) (random : nat) : string :=
  default "undefined" (head (split dash (slugify sillyname)))
  +:+ "-" +:+ decimal random.

(** [getPublicName()] *)
Definition getPublicName (sillyname : string) (random : nat) : string :=
  "public-" +:+ getSillyName sillyname random.

(** The characters of a silly word. *)
Definition isSillyChar (a : Ascii.ascii) : bool :=
  isLower a || isDigit a || isUnderscore a.

(** How a method of a command ends: it returns, or [this.out.exit(code)]
    ends the process (or, in a test, throws [ExitError]) and nothing
    after the call runs. *)
Inductive Ending : Set :=
| Returned
| Exited (code : Z).

Section Output.
(** [SchemaError] and [MigrationStep] of prisma-cli-engine. *)
Variables SchemaError MigrationStep : Type.

(** The styles of the chalk package. *)
Variables chalk_bold chalk_bold_red chalk_bold_yellow chalk_cyan
  : string → string.

(** What goes to [this.out]. *)
Inductive Printed :=
| Log (text : string)
| PrintErrors (errors : list SchemaError)
| PrintWarnings (warnings : list SchemaError)
| PrintMessages (steps : list MigrationStep).

Record Run := {
  printed : list Printed;
  ending : Ending;
}.

Definition skip : Run := {| printed := []; ending := Returned |}.

Definition print (p : Printed) : Run :=
  {| printed := [p]; ending := Returned |}.

Definition exit (code : Z) : Run :=
  {| printed := []; ending := Exited code |}.

(** One statement after another: nothing runs after an exit. *)
Definition andThen (first next : Run) : Run :=
  match ending first with
  | Returned =>
      {| printed := printed first ++ printed next;
         ending := ending next |}
  | Exited _ => first
  end.

#[local] Infix ">>" := andThen (at level 65, right associativity).

Record Migration := {
  revision : Z;
  steps : list MigrationStep;
}.

Record DeployPayload := {
  errors : option (list SchemaError);
  warnings : option (list SchemaError);
  migration : option Migration;
}.

(** [list && list.length > 0] *)
Definition nonEmpty {A} (l : option (list A)) : bool :=
  match l with
  | Some (_ :: _) => true
  | _ => false
  end.

(** [printResult(payload, force)] *)
Definition printResult (payload : DeployPayload) (force : bool) : Run :=
  (if nonEmpty (errors payload) then
     print (Log (chalk_bold_red (lineFeed +:+ "Errors:"))) >>
     print (PrintErrors (default [] (errors payload))) >>
     print (Log (lineFeed +:+ "Deployment canceled. Please fix the above errors to continue deploying.")) >>
     print (Log "Read more about deployment errors here: https://bit.ly/prisma-force-flag") >>
     exit 1
   else skip) >>
  (if nonEmpty (warnings payload) then
     print (Log (chalk_bold_yellow (lineFeed +:+ "Warnings:"))) >>
     print (PrintWarnings (default [] (warnings payload))) >>
     (if force then
        print (Log (lineFeed +:+ "Ignoring warnings because you provided --force."))
      else
        print (Log (lineFeed +:+ "If you want to ignore the warnings, please deploy with the --force flag: "
                    +:+ chalk_cyan "$ prisma deploy --force")) >>
        print (Log "Read more about deployment warnings here: https://bit.ly/prisma-force-flag") >>
        exit 1)
   else skip) >>
  match migration payload with
  | Some m =>
      if (length (steps m) =? 0)%nat then
        print (Log "Service is already up to date.")
      else if (0 <? length (steps m))%nat then
        print (Log (lineFeed +:+ chalk_bold "Changes:")) >>
        print (PrintMessages (steps m)) >>
        print (Log EmptyString)
      else skip
  | None => print (Log "Service is already up to date.")
  end.

End Output.

Arguments Log {SchemaError MigrationStep} text.
Arguments PrintErrors {SchemaError MigrationStep} errors.
Arguments PrintWarnings {SchemaError MigrationStep} warnings.
Arguments PrintMessages {SchemaError MigrationStep} steps.
Arguments printed {SchemaError MigrationStep} r.
Arguments ending {SchemaError MigrationStep} r.
Arguments errors {SchemaError MigrationStep} d.
Arguments warnings {SchemaError MigrationStep} d.
Arguments migration {SchemaError MigrationStep} d.
Arguments steps {MigrationStep} m.
Arguments revision {MigrationStep} m.
Arguments printResult {SchemaError MigrationStep}.

End DeployCommand.

(** ** commands/delete: the confirmation *)
Module DeleteCommand.
Import JsString DeployCommand.

(** [askForConfirmation(projects)], given the answer to the prompt. *)
Definition askForConfirmation (confirmation : string) : Ending :=
  if startsWith (toLowerCase confirmation) "n" then Exited 0
  else Returned.

End DeleteCommand.

(** ** PrismaDefinition.ts: the rest of [PrismaDefinitionClass] *)
Module DefinitionFile.
Import Js JsString.

#[export] Instance completion_ret : MRet completion := λ A a, Return a.

#[export] Instance completion_bind : MBind completion :=
  λ A B f c,
    match c with
    | Return a => f a
    | Throw m => Throw m
    end.

(** ToBoolean on [string | undefined] and [string | null]. *)
Definition truthyOpt (o : option string) : bool :=
  match o with
  | Some s => truthy_string s
  | None => false
  end.

(** [datamodel] is a path or an array of paths. *)
Inductive Datamodel :=
| OnePath (path : string)
| Paths (paths : list string).

(** The interface [PrismaDefinition] of the package prisma-json-schema,
    with the properties the class reads: [this.definition.endpoint],
    [.cluster], [.service], [.stage], [.secret], [.datamodel] and
    [.hooks]. *)
Record PrismaDefinitionProps := {
  ymlEndpoint : option string;
  ymlCluster : option string;
  ymlService : option string;
  ymlStage : option string;
  ymlSecret : option string;
  ymlDatamodel : Datamodel;
  ymlHooks : value;
}.

(** What [parseEndpoint] returns, with the fields the class
    destructures from it ([getCluster] names six of them, the getters
    [service] and [stage] the other two). *)
Record ParsedEndpoint := {
  parsedService : string;
  parsedStage : string;
  parsedClusterName : string;
  parsedClusterBaseUrl : string;
  parsedWorkspaceSlug : option string;
  parsedIsPrivate : bool;
  parsedLocal : bool;
  parsedShared : bool;
}.

(** The fields of [PrismaDefinitionClass]. *)
Record Instance := {
  definition : option PrismaDefinitionProps;
  typesString : option string;
  secrets : option (list string);
  definitionPath : option string;
  definitionDir : string;
  definitionString : string;
}.

(** The same object as the helpers of the first part see it. *)
Definition asClass (this : Instance)
  : PrismaDefinition.PrismaDefinitionClass :=
  {| PrismaDefinition.definition :=
       (λ d, {| PrismaDefinition.secret := ymlSecret d;
                PrismaDefinition.hooks := ymlHooks d |})
         <$> definition this;
     PrismaDefinition.secrets := secrets this |}.

(** [type DeprecationType = 'cluster'] *)
Inductive DeprecationType : Set := DeprecatedCluster.

(** [secrets ? secrets.replace(/\s/g, '').split(',') : null], the value
    [loadDefinition] stores in [this.secrets]. *)
Definition parseSecrets (secret : option string) : option (list string) :=
  match secret with
  | Some secrets =>
      if truthy_string secrets
      then Some (split comma (replaceEach isSpace EmptyString secrets))
      else None
  | None => None
  end.

Section Environment.
(** [process.env.PRISMA_MANAGEMENT_API_ENDPOINT] *)
Variable PRISMA_MANAGEMENT_API_ENDPOINT : option string.

(** [parseEndpoint] of ./utils/parseEndpoint; it may throw. *)
Variable parseEndpoint : string → completion ParsedEndpoint.

(** [this.env.clusterByName], given [string | null]. *)
Variable clusterByName : option string → option PrismaDefinition.Cluster.

(** The styles of the chalk package. *)
Variables chalk_bold chalk_yellow chalk_bold_green : string → string.

(** [fs.existsSync], [fs.readFileSync(path, 'utf-8')] and
    [path.join]. *)
Variable existsSync : string → bool.
Variable readFileSync : string → completion string.
Variable path_join : string → string → string.

(** [get endpoint()] *)
Definition endpoint (this : Instance) : option string :=
  let declared := definition this ≫= ymlEndpoint in
  if truthyOpt declared then declared
  else PRISMA_MANAGEMENT_API_ENDPOINT.

Definition deprecationMessage : string :=
  lineFeed +:+ "        "
  +:+ chalk_yellow "cluster, service, and stage are deprecated."
  +:+ lineFeed +:+ "        "
  +:+ chalk_yellow
        "Use the 'endpoint' property to define the endpoint of a service:"
  +:+ lineFeed +:+ "        "
  +:+ chalk_yellow
        "endpoint: http://localhost:4466/[<workspace>/]<service>/<stage>."
  +:+ lineFeed +:+ "      ".

(** [handleDeprecation(deprecationType)] *)
Definition handleDeprecation (deprecationType : DeprecationType)
  : completion unit :=
  match deprecationType with
  | DeprecatedCluster => Throw deprecationMessage
  end.

(** [get clusterBaseUrl()] *)
Definition clusterBaseUrl (this : Instance)
  : completion (option string) :=
  match definition this with
  | None => Return None
  | Some d =>
      if truthyOpt (ymlCluster d) || negb (truthyOpt (endpoint this))
      then Return None
      else
        parsed ← parseEndpoint (default EmptyString (endpoint this));
        Return (Some (parsedClusterBaseUrl parsed))
  end.

(** [get service()] *)
Definition service (this : Instance) : completion (option string) :=
  match definition this with
  | None => Return None
  | Some d =>
      _ ← (if truthyOpt (endpoint this) && truthyOpt (ymlService d)
           then handleDeprecation DeprecatedCluster else Return tt);
      if negb (truthyOpt (endpoint this)) && truthyOpt (ymlService d)
      then Return (ymlService d)
      else if negb (truthyOpt (endpoint this)) then Return None
      else
        parsed ← parseEndpoint (default EmptyString (endpoint this));
        Return (Some (parsedService parsed))
  end.

(** [get stage()] *)
Definition stage (this : Instance) : completion (option string) :=
  match definition this with
  | None => Return None
  | Some d =>
      _ ← (if truthyOpt (endpoint this) && truthyOpt (ymlStage d)
           then handleDeprecation DeprecatedCluster else Return tt);
      if negb (truthyOpt (endpoint this)) && truthyOpt (ymlStage d)
      then Return (ymlStage d)
      else if negb (truthyOpt (endpoint this)) then Return None
      else
        parsed ← parseEndpoint (default EmptyString (endpoint this));
        Return (Some (parsedStage parsed))
  end.

(** [get cluster()] *)
Definition cluster (this : Instance) : completion (option string) :=
  match definition this with
  | None => Return None
  | Some d =>
      _ ← (if truthyOpt (endpoint this) && truthyOpt (ymlCluster d)
           then handleDeprecation DeprecatedCluster else Return tt);
      if negb (truthyOpt (endpoint this)) && truthyOpt (ymlCluster d)
      then Return (ymlCluster d)
      else if negb (truthyOpt (endpoint this)) then Return None
      else
        parsed ← parseEndpoint (default EmptyString (endpoint this));
        Return (Some (parsedClusterName parsed))
  end.

(** The declared [cluster] property when it is truthy. *)
Definition declaredCluster (this : Instance) : option string :=
  match definition this ≫= ymlCluster with
  | Some c => if truthy_string c then Some c else None
  | None => None
  end.

(** [getClusterName(): string | null] *)
Definition getClusterName (this : Instance)
  : completion (option string) :=
  match declaredCluster this with
  | Some c => Return (last (split slash c))
  | None =>
      name ← cluster this;
      Return (if truthyOpt name then name else None)
  end.

(** [getWorkspace(): string | null] *)
Definition getWorkspace (this : Instance)
  : completion (option string) :=
  let fromEndpoint : completion (option string) :=
    match definition this with
    | Some _ =>
        if truthyOpt (endpoint this) then
          parsed ← parseEndpoint (default EmptyString (endpoint this));
          Return (if truthyOpt (parsedWorkspaceSlug parsed)
                  then parsedWorkspaceSlug parsed else None)
        else Return None
    | None => Return None
    end in
  match declaredCluster this with
  | Some c =>
      let splitted := split slash c in
      if (1 <? length splitted)%nat then Return (head splitted)
      else fromEndpoint
  | None => fromEndpoint
  end.

Definition missingWorkspaceMessage : string :=
  "Your `cluster` property in the prisma.yml is missing the workspace slug."
  +:+ lineFeed
  +:+ "Make sure that your `cluster` property looks like this: "
  +:+ chalk_bold "<workspace>/<cluster-name>"
  +:+ ". You can also remove the cluster property from the prisma.yml"
  +:+ lineFeed +:+ "and execute " +:+ chalk_bold_green "prisma deploy"
  +:+ " again, to get that value auto-filled.".

Definition demoEndpointMessage (endpoint : string) : string :=
  "The provided endpoint " +:+ endpoint
  +:+ " points to a demo cluster, but is missing the workspace slug. A valid demo endpoint looks like this: https://eu1.prisma.sh/myworkspace/service-name/stage-name".

Definition invalidEndpointMessage (endpoint : string) : string :=
  chalk_bold endpoint
  +:+ " is not a valid endpoint. It must start with http:// or https://".

(** The tail both workspace checks of [validate] share:
    [clusterName && cluster && cluster.shared && !cluster.isPrivate &&
    !this.getWorkspace() && clusterName !== 'shared-public-demo']. *)
Definition lacksWorkspace (this : Instance) (clusterName : option string)
    (found : option PrismaDefinition.Cluster) : completion bool :=
  match found with
  | Some c =>
      if truthyOpt clusterName && PrismaDefinition.shared c
         && negb (PrismaDefinition.isPrivate c)
      then
        workspace ← getWorkspace this;
        Return (negb (truthyOpt workspace)
                && negb (bool_decide
                           (clusterName = Some "shared-public-demo")))
      else Return false
  | None => Return false
  end.

(** [validate()] *)
Definition validate (this : Instance) : completion unit :=
  clusterName ← getClusterName this;
  let found := clusterByName clusterName in
  byCluster ←
    (if truthyOpt (definition this ≫= ymlCluster)
     then lacksWorkspace this clusterName found else Return false);
  if (byCluster : bool) then Throw missingWorkspaceMessage
  else
    byEndpoint ←
      (if truthyOpt (definition this ≫= ymlEndpoint)
       then lacksWorkspace this clusterName found else Return false);
    if (byEndpoint : bool) then
      Throw (demoEndpointMessage
               (default EmptyString (definition this ≫= ymlEndpoint)))
    else if truthyOpt (definition this ≫= ymlEndpoint)
            && negb (startsWith
                       (default EmptyString
                          (definition this ≫= ymlEndpoint))
                       "http")
    then
      Throw (invalidEndpointMessage
               (default EmptyString (definition this ≫= ymlEndpoint)))
    else Return tt.

Definition missingTypesMessage (typesPath : string) : string :=
  "The types definition file " +:+ String (Ascii.ascii_of_nat 34) typesPath
  +:+ String (Ascii.ascii_of_nat 34) " could not be found.".

(** One round of the [forEach] of [getTypesString]. *)
Definition addTypes (this : Instance) (allTypes : string)
    (unresolvedTypesPath : string) : completion string :=
  let typesPath := path_join (definitionDir this) unresolvedTypesPath in
  if existsSync typesPath then
    types ← readFileSync typesPath;
    Return (allTypes +:+ types +:+ lineFeed)
  else Throw (missingTypesMessage typesPath).

Fixpoint forEachTypes (this : Instance) (allTypes : string)
    (typesPaths : list string) : completion string :=
  match typesPaths with
  | [] => Return allTypes
  | p :: rest =>
      allTypes' ← addTypes this allTypes p;
      forEachTypes this allTypes' rest
  end.

(** [getTypesString(definition)] *)
Definition getTypesString (this : Instance)
    (definition : PrismaDefinitionProps) : completion string :=
  let typesPaths :=
    match ymlDatamodel definition with
    | Paths paths => paths
    | OnePath p => [p]
    end in
  forEachTypes this EmptyString typesPaths.

(** [loadDefinition(args)], given the definition that [readDefinition]
    read from [this.definitionPath]. *)
Definition loadDefinition (this : Instance)
    (read : PrismaDefinitionProps) : completion Instance :=
  text ← readFileSync (default EmptyString (definitionPath this));
  types ← getTypesString this read;
  Return {| definition := Some read;
            typesString := Some types;
            secrets := parseSecrets (ymlSecret read);
            definitionPath := definitionPath this;
            definitionDir := definitionDir this;
            definitionString := text |}.

End Environment.

(** *** An environment and two service definitions for examples *)

(** An endpoint parser that knows one local server and rejects what
    does not start with [http]. *)
Definition parseLocal (endpoint : string) : completion ParsedEndpoint :=
  if startsWith endpoint "http" then
    Return {| parsedService := "blog";
              parsedStage := "dev";
              parsedClusterName := "local";
              parsedClusterBaseUrl := "http://localhost:4466";
              parsedWorkspaceSlug := None;
              parsedIsPrivate := false;
              parsedLocal := true;
              parsedShared := false |}
  else Throw ("Invalid endpoint " +:+ endpoint).

(** A signer that shows the key it was given. *)
Definition exampleSign (payload : PrismaDefinition.TokenPayload)
    (key : option string) (options : PrismaDefinition.SignOptions)
  : completion string :=
  Return (PrismaDefinition.service (PrismaDefinition.data payload)
          +:+ ":" +:+ default "undefined" key).

(** The only cluster the environment knows is [prisma-eu1]. *)
Definition knownClusters (name : option string)
  : option PrismaDefinition.Cluster :=
  if bool_decide (name = Some "prisma-eu1")
  then Some PrismaDefinition.demoCluster else None.

(** Styles that leave the text as it is. *)
Definition plain (text : string) : string := text.

(** A directory [/app] with prisma.yml and two datamodel files. *)
Definition appFiles : list string :=
  ["/app/prisma.yml"; "/app/datamodel.graphql"; "/app/enums.graphql"].

Definition appExists (path : string) : bool :=
  bool_decide (path ∈ appFiles).

Definition appRead (path : string) : completion string :=
  if appExists path then Return ("# " +:+ path)
  else Throw ("ENOENT: no such file or directory, open " +:+ path).

Definition appJoin (dir path : string) : string :=
  dir +:+ "/" +:+ path.

Definition legacyDefinition : PrismaDefinitionProps :=
  {| ymlEndpoint := None;
     ymlCluster := Some "myws/prisma-eu1";
     ymlService := Some "blog";
     ymlStage := Some "dev";
     ymlSecret := Some "first secret, second";
     ymlDatamodel := Paths ["datamodel.graphql"; "enums.graphql"];
     ymlHooks := VUndefined |}.

Definition endpointDefinition : PrismaDefinitionProps :=
  {| ymlEndpoint := Some "http://localhost:4466/blog/dev";
     ymlCluster := None;
     ymlService := None;
     ymlStage := None;
     ymlSecret := None;
     ymlDatamodel := OnePath "missing.graphql";
     ymlHooks := VUndefined |}.

(** A cluster property without a workspace. *)
Definition bareClusterDefinition : PrismaDefinitionProps :=
  {| ymlEndpoint := None;
     ymlCluster := Some "prisma-eu1";
     ymlService := Some "blog";
     ymlStage := Some "dev";
     ymlSecret := None;
     ymlDatamodel := OnePath "datamodel.graphql";
     ymlHooks := VUndefined |}.

(** The object the constructor leaves for [/app/prisma.yml]. *)
Definition constructed : Instance :=
  {| definition := None;
     typesString := None;
     secrets := None;
     definitionPath := Some "/app/prisma.yml";
     definitionDir := "/app";
     definitionString := EmptyString |}.

Definition withDefinition (d : PrismaDefinitionProps) : Instance :=
  {| definition := Some d;
     typesString := None;
     secrets := None;
     definitionPath := Some "/app/prisma.yml";
     definitionDir := "/app";
     definitionString := EmptyString |}.

(** The same object once [legacyDefinition] is loaded. *)
Definition loaded : Instance :=
  {| definition := Some legacyDefinition;
     typesString :=
       Some ("# /app/datamodel.graphql" +:+ lineFeed
             +:+ "# /app/enums.graphql" +:+ lineFeed);
     secrets := Some ["firstsecret"; "second"];
     definitionPath := Some "/app/prisma.yml";
     definitionDir := "/app";
     definitionString := "# /app/prisma.yml" |}.

End DefinitionFile.

(** ** Properties of the definition helpers *)
Module PrismaDefinitionFacts.
Import Js PrismaDefinition.

Lemma string_app_assoc (s1 s2 s3 : string) :
  (s1 +:+ s2) +:+ s3 = s1 +:+ s2 +:+ s3.
Proof.
  induction s1 as [|a s1 IH]; [done|].
  change (String a ((s1 +:+ s2) +:+ s3) = String a (s1 +:+ s2 +:+ s3)).
  by rewrite IH.
Qed.

Lemma hookProp_falsy_hooks h hookType :
  truthy h = false → hookProp h hookType = VUndefined.
Proof. by destruct h. Qed.

(** C8, as stated, fails: on a shared cluster a workspace that is the
    empty string is not null, yet [concatName] returns the bare name and
    not the name prefixed with the workspace and a tilde. *)
Lemma concatName_empty_workspace_counterexample :
  shared demoCluster = true
  ∧ concatName demoCluster "svc" (Some "") = "svc"
  ∧ concatName demoCluster "svc" (Some "") ≠ "" +:+ "~" +:+ "svc".
Proof. repeat split; vm_compute; congruence. Qed.

(** C8 (amended): [concatName] is the identity on the service name for
    every cluster that is not shared; for a shared cluster it returns the
    name prefixed with the workspace and a tilde when the workspace is a
    non-empty string, and the bare name when the workspace is null or the
    empty string. *)
Theorem concatName_spec (cluster : Cluster) (name : string)
    (workspace : option string) :
  concatName cluster name workspace =
    if shared cluster then
      match workspace with
      | None => name
      | Some w => if decide (w = "") then name else w +:+ "~" +:+ name
      end
    else name.
Proof.
  unfold concatName. destruct (shared cluster); [|done].
  destruct workspace as [w|]; [|done].
  destruct w as [|a w]; simpl; [done|].
  apply string_app_assoc.
Qed.

Section Token.
Variable jwt_sign :
  TokenPayload → option string → SignOptions → completion string.

(** C9: [getToken] returns undefined exactly when no secrets are
    loaded; with at least one secret the token is whatever [jwt.sign]
    makes of the payload and the first secret, so further secrets
    never matter. *)
Theorem getToken_spec (def : option PrismaDefinitionJson)
    (serviceName stageName : string) :
  (∀ secrets,
     getToken jwt_sign {| definition := def; secrets := secrets |}
       serviceName stageName = Return None
     ↔ secrets = None)
  ∧ (∀ first rest,
       getToken jwt_sign
         {| definition := def; secrets := Some (first :: rest) |}
         serviceName stageName
       = cmap Some
           (jwt_sign
              {| data := {| service := serviceName +:+ "@" +:+ stageName;
                            roles := ["admin"] |} |}
              (Some first) {| expiresIn := "7d" |})
       ∧ getToken jwt_sign
           {| definition := def; secrets := Some (first :: rest) |}
           serviceName stageName
         = getToken jwt_sign
             {| definition := def; secrets := Some [first] |}
             serviceName stageName).
Proof.
  split.
  - intros [l|]; unfold getToken; simpl; [|done].
    split; [|done]. by destruct (jwt_sign _ _ _).
  - done.
Qed.
End Token.

(** C10, as stated, fails twice.  A hook declared as the empty string
    is a single string, yet [getHooks] returns the empty array and not
    a one-element array.  A hook declared as [false] is neither a string
    nor an array, yet [getHooks] does not throw. *)
Lemma getHooks_empty_string_counterexample :
  (declaredHook emptyHookDefinition PostDeploy = VString ""
   ∧ getHooks emptyHookDefinition PostDeploy = Return (VArray [])
   ∧ getHooks emptyHookDefinition PostDeploy
     ≠ Return (VArray [VString ""]))
  ∧ (declaredHook falseHookDefinition PostDeploy = VBool false
     ∧ getHooks falseHookDefinition PostDeploy = Return (VArray [])
     ∧ ∀ m, getHooks falseHookDefinition PostDeploy ≠ Throw m).
Proof. repeat split; vm_compute; congruence. Qed.

(** C10 (amended): [getHooks] returns an array whenever it returns: the
    empty array when the declared hook value is falsy (absent, null,
    false, zero, NaN or the empty string), a one-element array when it
    is a non-empty string, the array itself when it is an array; and it
    throws exactly when the declared value is truthy and neither a
    string nor an array. *)
Theorem getHooks_spec (this : PrismaDefinitionClass) (hookType : HookType) :
  getHooks this hookType =
    match declaredHook this hookType with
    | VString s =>
        if decide (s = "") then Return (VArray [])
        else Return (VArray [VString s])
    | VArray items => Return (VArray items)
    | v => if truthy v then Throw (hookError hookType)
           else Return (VArray [])
    end
  ∧ (∀ v, getHooks this hookType = Return v → is_array v = true)
  ∧ ((∃ m, getHooks this hookType = Throw m)
     ↔ truthy (declaredHook this hookType) = true
       ∧ is_string (declaredHook this hookType) = false
       ∧ is_array (declaredHook this hookType) = false).
Proof.
  unfold getHooks, declaredHook.
  destruct (definition this) as [def|]; simpl;
    [destruct (truthy (hooks def)) eqn:Hh; simpl;
     [|rewrite (hookProp_falsy_hooks _ _ Hh); simpl]|].
  1: destruct (hookProp (hooks def) hookType) as [| |[]|[|z]|[|a s]|items|props];
       simpl; try destruct (Z.eqb z 0); simpl.
  all: split; [done|split; [by intros v [= <-]|]].
  all: split; [(by intros [m [=]]) || (intros _; done)
              |(by intros (? & ? & ?)) || (intros _; eauto)].
Qed.

End PrismaDefinitionFacts.

(** ** Properties of the string helpers and of [slugify] *)
Module JsStringFacts.
Import JsString.

Lemma app_nil_l (s : string) : EmptyString +:+ s = s.
Proof. reflexivity. Qed.

Lemma app_cons (a : Ascii.ascii) (s t : string) :
  String a s +:+ t = String a (s +:+ t).
Proof. reflexivity. Qed.

Lemma app_nil_r (s : string) : s +:+ EmptyString = s.
Proof.
  induction s as [|a s IH]; [reflexivity|]. by rewrite app_cons, IH.
Qed.

Lemma append_assoc (s t u : string) : (s +:+ t) +:+ u = s +:+ (t +:+ u).
Proof.
  induction s as [|a s IH]; [reflexivity|]. by rewrite !app_cons, IH.
Qed.

Lemma app_not_nil (s : string) (a : Ascii.ascii) :
  s +:+ String a EmptyString ≠ EmptyString.
Proof. by destruct s. Qed.

Lemma length_snoc (s : string) (a : Ascii.ascii) :
  String.length (s +:+ String a EmptyString) = S (String.length s).
Proof.
  induction s as [|b s IH]; [reflexivity|].
  rewrite app_cons. simpl. by rewrite IH.
Qed.

Lemma isDash_eq (a : Ascii.ascii) : isDash a = true → a = dash.
Proof.
  unfold isDash, code. intros H%Nat.eqb_eq.
  rewrite <- (Ascii.ascii_nat_embedding a). by rewrite H.
Qed.

(** *** Character tests on whole strings *)

Lemma allChars_impl (p q : Ascii.ascii → bool) (s : string) :
  (∀ a, p a = true → q a = true) →
  allChars p s = true → allChars q s = true.
Proof.
  intros Hpq. induction s as [|a s IH]; [done|]. simpl.
  intros [Ha Hs]%andb_true_iff. by rewrite (Hpq _ Ha), IH.
Qed.

Lemma allChars_app (p : Ascii.ascii → bool) (s t : string) :
  allChars p (s +:+ t) = allChars p s && allChars p t.
Proof.
  induction s as [|a s IH]; [reflexivity|].
  rewrite app_cons. simpl. by rewrite IH, andb_assoc.
Qed.

Lemma allChars_firstChar (p : Ascii.ascii → bool) (s : string) :
  allChars p s = true → firstChar p s = true.
Proof. destruct s; [done|]. simpl. by intros [? _]%andb_true_iff. Qed.

(** *** Replacing runs *)

Lemma replaceRunsFrom_one p r run s :
  replaceRunsFrom p 1 r run s
  = match run with
    | EmptyString => replaceRunsFlag p r false s
    | _ => r +:+ replaceRunsFlag p r true s
    end.
Proof.
  revert run. induction s as [|a s IH]; intros run; simpl.
  - destruct run; [reflexivity|]. unfold flush. simpl.
    by rewrite app_nil_r.
  - destruct (p a).
    + rewrite IH. destruct run; reflexivity.
    + rewrite (IH EmptyString). by destruct run.
Qed.

Lemma replaceRunsFrom_dashes run s :
  allChars isDash run = true →
  replaceRunsFrom isDash 2 "-" run s
  = match run with
    | EmptyString => replaceRunsFlag isDash "-" false s
    | _ => "-" +:+ replaceRunsFlag isDash "-" true s
    end.
Proof.
  assert (Hflush : ∀ run, allChars isDash run = true →
            flush 2 "-" run
            = match run with EmptyString => EmptyString | _ => "-" end).
  { intros [|a [|b run']]; simpl; [done| |done].
    intros [Ha%isDash_eq _]%andb_true_iff. by rewrite Ha. }
  revert run. induction s as [|a s IH]; intros run Hrun; simpl.
  - rewrite (Hflush _ Hrun). by destruct run.
  - destruct (isDash a) eqn:Ha.
    + rewrite IH by (by rewrite allChars_app, Hrun; simpl; rewrite Ha).
      destruct run; reflexivity.
    + rewrite (IH EmptyString) by done. rewrite (Hflush _ Hrun).
      by destruct run.
Qed.

Lemma replaceRunsFlag_chars p q r b s :
  allChars q r = true →
  allChars (λ a, p a || q a) s = true →
  allChars q (replaceRunsFlag p r b s) = true.
Proof.
  intros Hr. revert b. induction s as [|a s IH]; intros b; [done|].
  simpl. intros [Ha Hs]%andb_true_iff.
  destruct (p a); [destruct b|].
  - by apply IH.
  - rewrite allChars_app, Hr. by apply IH.
  - simpl in *. rewrite Ha. by apply IH.
Qed.

Lemma replaceRunsFlag_id p r b s :
  allChars (λ a, negb (p a)) s = true → replaceRunsFlag p r b s = s.
Proof.
  revert b. induction s as [|a s IH]; intros b; [done|]. simpl.
  intros [Ha%negb_true_iff Hs]%andb_true_iff. by rewrite Ha, IH.
Qed.

(** Collapsing runs of a character leaves no two of them in a row, and
    nothing of a run that had begun before. *)
Lemma replaceRunsFlag_shape b s :
  noTwoInARow isDash (replaceRunsFlag isDash "-" b s) = true
  ∧ (b = true →
     firstChar (λ a, negb (isDash a))
       (replaceRunsFlag isDash "-" b s) = true).
Proof.
  revert b. induction s as [|a s IH]; intros b; [done|]. simpl.
  destruct (isDash a) eqn:Ha; [destruct b|].
  - apply IH.
  - destruct (IH true) as [Hno Hfirst]. split; [|done].
    rewrite app_cons, app_nil_l. simpl. by rewrite Hno, Hfirst.
  - destruct (IH false) as [Hno _]. simpl. by rewrite Ha, Hno.
Qed.

Lemma replaceRunsFlag_dashes_id b s :
  noTwoInARow isDash s = true →
  (b = true → firstChar (λ a, negb (isDash a)) s = true) →
  replaceRunsFlag isDash "-" b s = s.
Proof.
  revert b. induction s as [|a s IH]; intros b; [done|]. simpl.
  intros [Ha Hs]%andb_true_iff Hb.
  destruct (isDash a) eqn:Hdash.
  - destruct b; [by specialize (Hb eq_refl)|].
    simpl in Ha. apply negb_true_iff, negb_false_iff in Ha.
    rewrite app_cons, app_nil_l, (IH true) by done.
    by rewrite (isDash_eq _ Hdash).
  - by rewrite (IH false).
Qed.

(** *** Stripping both ends *)

Lemma stripStart_chars p q s :
  allChars q s = true → allChars q (stripStart p s) = true.
Proof.
  induction s as [|a s IH]; [done|]. simpl.
  destruct (p a); [|done]. by intros [_ ?]%andb_true_iff; apply IH.
Qed.

Lemma stripStart_first p s :
  firstChar (λ a, negb (p a)) (stripStart p s) = true.
Proof.
  induction s as [|a s IH]; [done|]. simpl.
  destruct (p a) eqn:Ha; [done|]. simpl. by rewrite Ha.
Qed.

Lemma stripStart_noTwo p q s :
  noTwoInARow q s = true → noTwoInARow q (stripStart p s) = true.
Proof.
  induction s as [|a s IH]; [done|]. simpl.
  destruct (p a); [|done]. by intros [_ ?]%andb_true_iff; apply IH.
Qed.

Lemma stripStart_id p s :
  firstChar (λ a, negb (p a)) s = true → stripStart p s = s.
Proof. destruct s; [done|]. simpl. by intros ->%negb_true_iff. Qed.

Lemma stripEnd_cons p a s :
  stripEnd p (String a s)
  = match stripEnd p s with
    | EmptyString => if p a then EmptyString else String a EmptyString
    | kept => String a kept
    end.
Proof. reflexivity. Qed.

Lemma stripEnd_chars p q s :
  allChars q s = true → allChars q (stripEnd p s) = true.
Proof.
  induction s as [|a s IH]; [done|]. rewrite stripEnd_cons.
  intros [Ha Hs]%andb_true_iff. specialize (IH Hs).
  destruct (stripEnd p s); [destruct (p a)|]; simpl in *;
    by rewrite ?Ha, ?IH.
Qed.

Lemma stripEnd_first p q s :
  firstChar q s = true → firstChar q (stripEnd p s) = true.
Proof.
  destruct s as [|a s]; [done|]. rewrite stripEnd_cons. simpl.
  intros Ha. destruct (stripEnd p s); [destruct (p a)|]; done.
Qed.

Lemma stripEnd_last p s :
  lastChar (λ a, negb (p a)) (stripEnd p s) = true.
Proof.
  induction s as [|a s IH]; [done|]. rewrite stripEnd_cons.
  destruct (stripEnd p s) as [|b kept] eqn:Hkept.
  - destruct (p a) eqn:Ha; [done|]. simpl. by rewrite Ha.
  - done.
Qed.

Lemma stripEnd_noTwo p q s :
  noTwoInARow q s = true → noTwoInARow q (stripEnd p s) = true.
Proof.
  induction s as [|a s IH]; [done|]. rewrite stripEnd_cons.
  intros [Ha Hs]%andb_true_iff. specialize (IH Hs).
  destruct (stripEnd p s) as [|b kept] eqn:Hkept.
  - destruct (p a); [done|]. simpl. by rewrite andb_false_r.
  - change (noTwoInARow q (String a (String b kept)))
      with (negb (q a && negb (negb (q b)))
            && noTwoInARow q (String b kept)).
    rewrite IH, andb_true_r.
    destruct s as [|b' s']; [done|].
    rewrite stripEnd_cons in Hkept.
    assert (b = b') as ->.
    { destruct (stripEnd p s'); [destruct (p b')|]; congruence. }
    done.
Qed.

Lemma stripEnd_id p s :
  lastChar (λ a, negb (p a)) s = true → stripEnd p s = s.
Proof.
  induction s as [|a s IH]; [done|]. rewrite stripEnd_cons.
  destruct s as [|b s'].
  - simpl. by intros ->%negb_true_iff.
  - intros H. by rewrite IH.
Qed.

(** *** Lower case *)

Lemma lowerChar_not_upper a : isUpper (lowerChar a) = false.
Proof. by destruct a as [[] [] [] [] [] [] [] []]. Qed.

Lemma toLowerCase_not_upper s :
  allChars (λ a, negb (isUpper a)) (toLowerCase s) = true.
Proof.
  induction s as [|a s IH]; [done|]. simpl.
  by rewrite lowerChar_not_upper, IH.
Qed.

Lemma toLowerCase_id s :
  allChars (λ a, negb (isUpper a) && negb (inRange 192 222 a)) s = true →
  toLowerCase s = s.
Proof.
  induction s as [|a s IH]; [done|]. simpl.
  intros [[Hu%negb_true_iff Hl%negb_true_iff]%andb_true_iff Hs]
    %andb_true_iff.
  rewrite IH by done. unfold lowerChar. by rewrite Hu, Hl.
Qed.

End JsStringFacts.

(** ** Properties of [split] and [join] *)
Module JsSplitFacts.
Import JsString JsStringFacts.

Lemma split_not_nil sep s : split sep s ≠ [].
Proof.
  destruct s as [|a s]; [done|]. simpl.
  destruct (Ascii.eqb a sep); [done|]. by destruct (split sep s).
Qed.

Lemma split_cons sep s : ∃ w ws, split sep s = w :: ws.
Proof.
  destruct (split sep s) as [|w ws] eqn:E; [|by exists w, ws].
  by destruct (split_not_nil sep s).
Qed.

Lemma join_cons sep w v ws :
  join sep (w :: v :: ws) = w +:+ String sep (join sep (v :: ws)).
Proof. reflexivity. Qed.

Lemma join_split sep s : join sep (split sep s) = s.
Proof.
  induction s as [|a s IH]; [reflexivity|]. simpl.
  destruct (Ascii.eqb a sep) eqn:Ea.
  - apply Ascii.eqb_eq in Ea as ->.
    destruct (split_cons sep s) as (w & ws & E). rewrite E in *.
    rewrite join_cons, app_nil_l. by rewrite IH.
  - destruct (split_cons sep s) as (w & ws & E). rewrite E in *.
    destruct ws as [|v ws].
    + unfold join in *. simpl in *. by rewrite IH.
    + rewrite join_cons in *. rewrite app_cons. by rewrite IH.
Qed.

Lemma split_parts sep s :
  Forall (λ w, allChars (isNot sep) w = true) (split sep s).
Proof.
  induction s as [|a s IH]; [by constructor|]. simpl.
  destruct (Ascii.eqb a sep) eqn:Ea; [by constructor|].
  destruct (split_cons sep s) as (w & ws & E). rewrite E in *.
  inversion IH as [|? ? Hw Hws]; subst. constructor; [|done].
  simpl. unfold isNot at 1. by rewrite Ea, Hw.
Qed.

Lemma split_keeps (q : Ascii.ascii → bool) sep s :
  allChars q s = true →
  Forall (λ w, allChars q w = true) (split sep s).
Proof.
  induction s as [|a s IH]; [by constructor|]. simpl.
  intros [Ha Hs]%andb_true_iff. specialize (IH Hs).
  destruct (Ascii.eqb a sep) eqn:Ea; [by constructor|].
  destruct (split_cons sep s) as (w & ws & E). rewrite E in *.
  inversion IH as [|? ? Hw Hws]; subst. constructor; [|done].
  simpl. by rewrite Ha, Hw.
Qed.

Lemma split_free sep w :
  allChars (isNot sep) w = true → split sep w = [w].
Proof.
  induction w as [|a w IH]; [done|]. simpl.
  intros [Ha Hw]%andb_true_iff. unfold isNot in Ha.
  apply negb_true_iff in Ha. by rewrite Ha, (IH Hw).
Qed.

Lemma split_app sep w rest :
  allChars (isNot sep) w = true →
  split sep (w +:+ String sep rest) = w :: split sep rest.
Proof.
  induction w as [|a w IH].
  - intros _. rewrite app_nil_l. simpl. by rewrite Ascii.eqb_refl.
  - intros H. rewrite app_cons. simpl in *.
    apply andb_true_iff in H as [Ha Hw]. unfold isNot in Ha.
    apply negb_true_iff in Ha. by rewrite Ha, (IH Hw).
Qed.

Lemma split_join sep w ws :
  Forall (λ v, allChars (isNot sep) v = true) (w :: ws) →
  split sep (join sep (w :: ws)) = w :: ws.
Proof.
  revert w. induction ws as [|v ws IH]; intros w Hall.
  - inversion Hall; subst. unfold join. simpl. by apply split_free.
  - inversion Hall as [|? ? Hw Hrest]; subst.
    rewrite join_cons, split_app by done. by rewrite IH.
Qed.

Lemma replaceEach_removes p s :
  allChars (λ a, negb (p a)) (replaceEach p EmptyString s) = true.
Proof.
  induction s as [|a s IH]; [done|]. simpl.
  destruct (p a) eqn:Ea; [by rewrite app_nil_l|].
  simpl. by rewrite Ea, IH.
Qed.

Lemma allChars_and p q s :
  allChars p s = true → allChars q s = true →
  allChars (λ a, p a && q a) s = true.
Proof.
  induction s as [|a s IH]; [done|]. simpl.
  intros [-> Hp]%andb_true_iff [-> Hq]%andb_true_iff. by rewrite IH.
Qed.

Lemma prefix_app (w rest : string) : String.prefix w (w +:+ rest) = true.
Proof.
  induction w as [|a w IH]; [by destruct rest|].
  rewrite app_cons. simpl. destruct (Ascii.ascii_dec a a); [done|done].
Qed.

End JsSplitFacts.

(** ** Properties of the SDL text *)
Module SdlTextFacts.
Import JsString JsStringFacts JsSplitFacts Introspection.

(** *** Reading pieces of a line *)

Lemma stripPrefix_app (p s : string) : stripPrefix p (p +:+ s) = Some s.
Proof.
  induction p as [|a p IH]; [reflexivity|].
  rewrite app_cons. simpl. by rewrite Ascii.eqb_refl.
Qed.

Lemma takeUntil_app c w rest :
  allChars (isNot c) w = true → takeUntil c (w +:+ String c rest) = w.
Proof.
  induction w as [|a w IH]; intros H.
  - rewrite app_nil_l. simpl. by rewrite Ascii.eqb_refl.
  - rewrite app_cons. simpl in *. apply andb_true_iff in H as [Ha Hw].
    unfold isNot in Ha. apply negb_true_iff in Ha. by rewrite Ha, IH.
Qed.

Lemma dropUntil_app c w rest :
  allChars (isNot c) w = true → dropUntil c (w +:+ String c rest) = rest.
Proof.
  induction w as [|a w IH]; intros H.
  - rewrite app_nil_l. simpl. by rewrite Ascii.eqb_refl.
  - rewrite app_cons. simpl in *. apply andb_true_iff in H as [Ha Hw].
    unfold isNot in Ha. apply negb_true_iff in Ha. by rewrite Ha, IH.
Qed.

Lemma takeUntil_free c w :
  allChars (isNot c) w = true → takeUntil c w = w.
Proof.
  induction w as [|a w IH]; [done|]. simpl.
  intros [Ha Hw]%andb_true_iff. unfold isNot in Ha.
  apply negb_true_iff in Ha. by rewrite Ha, IH.
Qed.

Lemma dropUntil_free c w :
  allChars (isNot c) w = true → dropUntil c w = EmptyString.
Proof.
  induction w as [|a w IH]; [done|]. simpl.
  intros [Ha Hw]%andb_true_iff. unfold isNot in Ha.
  apply negb_true_iff in Ha. by rewrite Ha, IH.
Qed.

(** *** Characters of the generated names *)

Lemma alnum_plain a :
  isAlnum a = true →
  isNot colon a = true ∧ isNot space a = true
  ∧ isNot lineBreak a = true ∧ isAlnum (upcase a) = true.
Proof. by destruct a as [[] [] [] [] [] [] [] []]. Qed.

Lemma alnum_no_colon s :
  allChars isAlnum s = true → allChars (isNot colon) s = true.
Proof. apply allChars_impl. intros a Ha. by apply alnum_plain. Qed.

Lemma alnum_no_space s :
  allChars isAlnum s = true → allChars (isNot space) s = true.
Proof. apply allChars_impl. intros a Ha. by apply alnum_plain. Qed.

Lemma alnum_one_line s :
  allChars isAlnum s = true → allChars (isNot lineBreak) s = true.
Proof. apply allChars_impl. intros a Ha. by apply alnum_plain. Qed.

Lemma splitBy_cons p s : ∃ w ws, splitBy p s = w :: ws.
Proof.
  destruct s as [|a s]; [by eexists _, _|]. simpl.
  destruct (p a); [by eexists _, _|].
  destruct (splitBy p s); by eexists _, _.
Qed.

Lemma splitBy_parts p s :
  Forall (λ w, allChars (λ a, negb (p a)) w = true) (splitBy p s).
Proof.
  induction s as [|a s IH]; [by constructor|]. simpl.
  destruct (p a) eqn:Ea; [by constructor|].
  destruct (splitBy_cons p s) as (w & ws & E). rewrite E in *.
  inversion IH as [|? ? Hw Hws]; subst. constructor; [|done].
  simpl. by rewrite Ea, Hw.
Qed.

Lemma segments_alnum s :
  Forall (λ w, allChars isAlnum w = true) (segments s).
Proof.
  unfold segments. apply Forall_forall. intros w Hw.
  apply list_elem_of_filter in Hw as [_ Hw].
  pose proof (splitBy_parts (λ a, negb (isAlnum a)) s) as Hall.
  rewrite Forall_forall in Hall. specialize (Hall w Hw).
  revert Hall. apply allChars_impl. intros a. by rewrite negb_involutive.
Qed.

Lemma stem_alnum column :
  Forall (λ w, allChars isAlnum w = true) (stem column).
Proof.
  unfold stem. pose proof (segments_alnum column) as Hall.
  destruct (reverse (segments column)) as [|last [|w ws]] eqn:E;
    [done..|].
  destruct (String.eqb last "id"); [|done].
  apply (f_equal reverse) in E. rewrite reverse_involutive in E.
  rewrite E, Forall_reverse in Hall. rewrite Forall_reverse.
  by inversion Hall.
Qed.

Lemma stems_alnum columns :
  Forall (λ w, allChars isAlnum w = true) (columns ≫= stem).
Proof.
  apply Forall_forall. intros w (c & Hw & _)%list_elem_of_bind.
  pose proof (stem_alnum c) as Hall. rewrite Forall_forall in Hall.
  by apply Hall.
Qed.

Lemma capitalize_alnum w :
  allChars isAlnum w = true → allChars isAlnum (capitalize w) = true.
Proof.
  destruct w as [|a w]; [done|]. simpl.
  intros [Ha Hw]%andb_true_iff.
  by rewrite (proj2 (proj2 (proj2 (alnum_plain a Ha)))), Hw.
Qed.

Lemma concat_cons (x : string) (l : list string) :
  String.concat EmptyString (x :: l) = x +:+ String.concat EmptyString l.
Proof. destruct l; [by rewrite app_nil_r|reflexivity]. Qed.

Lemma pascalCase_cons w ws :
  pascalCase (w :: ws) = capitalize w +:+ pascalCase ws.
Proof. unfold pascalCase. by rewrite fmap_cons, concat_cons. Qed.

Lemma pascalCase_alnum ws :
  Forall (λ w, allChars isAlnum w = true) ws →
  allChars isAlnum (pascalCase ws) = true.
Proof.
  induction 1 as [|w ws Hw Hws IH]; [done|].
  by rewrite pascalCase_cons, allChars_app, capitalize_alnum, IH.
Qed.

Lemma camelCase_alnum ws :
  Forall (λ w, allChars isAlnum w = true) ws →
  allChars isAlnum (camelCase ws) = true.
Proof.
  destruct 1 as [|w ws Hw Hws]; [done|]. simpl.
  by rewrite allChars_app, Hw, pascalCase_alnum.
Qed.

Lemma typeName_alnum table : allChars isAlnum (typeName table) = true.
Proof. apply pascalCase_alnum, segments_alnum. Qed.

Lemma scalarFieldName_alnum column :
  allChars isAlnum (scalarFieldName column) = true.
Proof. apply camelCase_alnum, segments_alnum. Qed.

Lemma suffix_alnum columns ambiguous :
  allChars isAlnum (suffix columns ambiguous) = true.
Proof.
  unfold suffix. destruct ambiguous; [|done].
  rewrite allChars_app. simpl. apply pascalCase_alnum, stems_alnum.
Qed.

Lemma inlineFieldName_alnum fk :
  allChars isAlnum (inlineFieldName fk) = true.
Proof.
  unfold inlineFieldName. destruct (fkSourceColumns fk) as [|c cs].
  - apply camelCase_alnum, segments_alnum.
  - apply camelCase_alnum, stems_alnum.
Qed.

Lemma backFieldName_alnum schema fk :
  allChars isAlnum (backFieldName schema fk) = true.
Proof.
  unfold backFieldName. rewrite !allChars_app, suffix_alnum.
  by rewrite camelCase_alnum by apply segments_alnum.
Qed.

Lemma listFieldName_alnum near far :
  allChars isAlnum (listFieldName near far) = true.
Proof.
  unfold listFieldName. rewrite !allChars_app, suffix_alnum.
  by rewrite camelCase_alnum by apply segments_alnum.
Qed.

(** *** Escaped names *)

Lemma unescape_escapeChar a rest :
  unescape (escapeChar a +:+ rest) = String a (unescape rest).
Proof. by destruct a as [[] [] [] [] [] [] [] []]. Qed.

Lemma unescape_escape s : unescape (escape s) = s.
Proof.
  induction s as [|a s IH]; [done|].
  cbn [escape]. by rewrite unescape_escapeChar, IH.
Qed.

Lemma escape_inj s t : escape s = escape t → s = t.
Proof.
  intros H. by rewrite <- (unescape_escape s), H, unescape_escape.
Qed.

Lemma length_app (s t : string) :
  String.length (s +:+ t) = String.length s + String.length t.
Proof.
  induction s as [|a s IH]; [done|]. rewrite app_cons. simpl.
  by rewrite IH.
Qed.

Lemma append_inj_length (s t u v : string) :
  String.length s = String.length t →
  s +:+ u = t +:+ v → s = t ∧ u = v.
Proof.
  revert t. induction s as [|a s IH]; intros [|b t] Hlen H; try done.
  rewrite !app_cons in H. injection H as -> H. injection Hlen as Hlen.
  destruct (IH t Hlen H) as [-> ->]. done.
Qed.

Lemma append_inv_tail (s t u : string) : s +:+ u = t +:+ u → s = t.
Proof.
  intros H. refine (proj1 (append_inj_length s t u u _ H)).
  apply (f_equal String.length) in H. rewrite !length_app in H. lia.
Qed.

Lemma quoted_inj s t : quoted s = quoted t → s = t.
Proof.
  unfold quoted. rewrite !app_cons. intros [= H].
  by apply append_inv_tail, escape_inj in H.
Qed.

Lemma tableAnnotation_inj s t :
  tableAnnotation s = tableAnnotation t → s = t.
Proof.
  unfold tableAnnotation. intros H.
  apply (append_inj_length "@table(name: " "@table(name: ") in H as [_ H];
    [|done].
  by apply append_inv_tail, quoted_inj in H.
Qed.

(** *** Lines *)

#[local] Abbreviation oneLine :=
  (λ s : string, allChars (isNot lineBreak) s = true).

Lemma escapeChar_one_line a : oneLine (escapeChar a).
Proof. by destruct a as [[] [] [] [] [] [] [] []]. Qed.

Lemma escape_one_line s : oneLine (escape s).
Proof.
  induction s as [|a s IH]; [done|].
  cbn [escape]. by rewrite allChars_app, escapeChar_one_line, IH.
Qed.

Lemma quoted_one_line s : oneLine (quoted s).
Proof.
  unfold quoted. rewrite app_cons. cbn [allChars].
  by rewrite allChars_app, escape_one_line.
Qed.

Lemma concat_one_line sep l :
  oneLine sep → Forall oneLine l → oneLine (String.concat sep l).
Proof.
  intros Hsep. induction 1 as [|x l Hx Hl IH]; [done|].
  destruct l as [|y l]; [done|].
  change (String.concat sep (x :: y :: l))
    with (x +:+ sep +:+ String.concat sep (y :: l)).
  by rewrite !allChars_app, Hx, Hsep, IH.
Qed.

Lemma renderNames_one_line names : oneLine (renderNames names).
Proof.
  unfold renderNames. rewrite app_cons, app_nil_l. cbn [allChars].
  rewrite allChars_app. rewrite concat_one_line; [done|done|].
  apply Forall_forall. intros x (n & -> & _)%list_elem_of_fmap.
  apply quoted_one_line.
Qed.

Lemma renderAction_one_line a : oneLine (renderAction a).
Proof. by destruct a. Qed.

Lemma renderForeignKey_one_line fk : oneLine (renderForeignKey fk).
Proof.
  unfold renderForeignKey.
  by rewrite !allChars_app, !quoted_one_line, !renderNames_one_line,
    !renderAction_one_line.
Qed.

Lemma tableAnnotation_one_line table : oneLine (tableAnnotation table).
Proof.
  unfold tableAnnotation. by rewrite !allChars_app, quoted_one_line.
Qed.

Lemma fieldAnnotation_one_line f : oneLine (fieldAnnotation f).
Proof.
  unfold fieldAnnotation. apply concat_one_line; [done|].
  unfold directives. destruct (fldOrigin f) as [column|fk|fk|j near far].
  - repeat apply Forall_app_2.
    + destruct (fldIdentity f); by repeat constructor.
    + destruct (decide _); [constructor|]. repeat constructor.
      by rewrite !allChars_app, quoted_one_line.
    + destruct (decide _); by repeat constructor.
  - repeat constructor. unfold inlineAnnotation.
    by rewrite !allChars_app, renderForeignKey_one_line.
  - repeat constructor. unfold backReferenceAnnotation.
    by rewrite !allChars_app, renderForeignKey_one_line.
  - repeat constructor. unfold relationTableAnnotation.
    by rewrite !allChars_app, quoted_one_line, !renderForeignKey_one_line.
Qed.

(** *** Well-formed documents *)

Lemma renderFieldType_no_space f :
  plainField f → allChars (isNot space) (renderFieldType f) = true.
Proof.
  intros [_ Hbase%alnum_no_space]. unfold renderFieldType.
  destruct (fldList f); [|destruct (fldNullable f)];
    by rewrite ?app_cons, ?app_nil_l, ?allChars_app; cbn [allChars];
       rewrite ?allChars_app, Hbase.
Qed.

Lemma renderFieldType_one_line f :
  plainField f → oneLine (renderFieldType f).
Proof.
  intros [_ Hbase%alnum_one_line]. unfold renderFieldType.
  destruct (fldList f); [|destruct (fldNullable f)];
    by rewrite ?app_cons, ?app_nil_l, ?allChars_app; cbn [allChars];
       rewrite ?allChars_app, Hbase.
Qed.

Lemma renderField_one_line f : plainField f → oneLine (renderField f).
Proof.
  intros Hf. pose proof (renderFieldType_one_line f Hf) as Ht.
  destruct Hf as [Hname%alnum_one_line _]. unfold renderField.
  pose proof (fieldAnnotation_one_line f) as Ha.
  rewrite !allChars_app, Hname, Ht.
  destruct (fieldAnnotation f) as [|a s]; [done|].
  by rewrite allChars_app, Ha.
Qed.

Lemma blockLines_one_line b :
  plainBlock b → Forall oneLine (blockLines b).
Proof.
  intros [Hname%alnum_one_line Hfields]. unfold blockLines.
  constructor.
  - by rewrite !allChars_app, Hname, tableAnnotation_one_line.
  - apply Forall_app_2; [|by repeat constructor].
    apply Forall_fmap. eapply Forall_impl; [exact Hfields|].
    intros f. apply renderField_one_line.
Qed.

(** *** Reading a rendered document back *)

Lemma readLine_header name annotation :
  allChars isAlnum name = true →
  readLine ("type " +:+ name +:+ " " +:+ annotation)
  = Header name annotation.
Proof.
  intros H%alnum_no_space. unfold readLine. rewrite stripPrefix_app.
  change (" " +:+ annotation) with (String space annotation).
  by rewrite takeUntil_app, dropUntil_app.
Qed.

Lemma readLine_indented rest :
  readLine ("  " +:+ rest)
  = Declaration
      {| rfName := takeUntil colon rest;
         rfType :=
           takeUntil space
             (default EmptyString
                (stripPrefix " " (dropUntil colon rest)));
         rfAnnotation :=
           dropUntil space
             (default EmptyString
                (stripPrefix " " (dropUntil colon rest))) |}.
Proof. reflexivity. Qed.

Lemma after_name name rest :
  allChars (isNot colon) name = true →
  takeUntil colon (name +:+ ": " +:+ rest) = name
  ∧ stripPrefix " " (dropUntil colon (name +:+ ": " +:+ rest))
    = Some rest.
Proof.
  intros Hname.
  change (name +:+ ": " +:+ rest)
    with (name +:+ String colon (" " +:+ rest)).
  by rewrite takeUntil_app, dropUntil_app, stripPrefix_app.
Qed.

Lemma after_type type annotation :
  allChars (isNot space) type = true →
  takeUntil space (type +:+ " " +:+ annotation) = type
  ∧ dropUntil space (type +:+ " " +:+ annotation) = annotation.
Proof.
  intros Htype.
  change (type +:+ " " +:+ annotation)
    with (type +:+ String space annotation).
  by rewrite takeUntil_app, dropUntil_app.
Qed.

Lemma readLine_field f :
  plainField f → readLine (renderField f) = Declaration (readField f).
Proof.
  intros Hf. pose proof (renderFieldType_no_space f Hf) as Htype.
  destruct Hf as [Hname%alnum_no_colon _].
  unfold renderField, readField. rewrite readLine_indented.
  destruct (after_name (fldName f)
              (renderFieldType f
               +:+ match fieldAnnotation f with
                   | EmptyString => EmptyString
                   | annotation => " " +:+ annotation
                   end) Hname) as [-> ->].
  cbn [default from_option id]. destruct (fieldAnnotation f) as [|a rest];
    cbv iota.
  - rewrite app_nil_r. by rewrite takeUntil_free, dropUntil_free.
  - by destruct (after_type (renderFieldType f) (String a rest) Htype)
      as [-> ->].
Qed.

Lemma readFields_block fs more :
  Forall plainField fs →
  readFields ((renderField <$> fs) ++ "}" :: more)%list
  = readField <$> fs.
Proof.
  induction 1 as [|f fs Hf Hfs IH]; [done|].
  rewrite fmap_cons. cbn [app readFields].
  by rewrite readLine_field, IH.
Qed.

Lemma readBlocks_block fs more :
  Forall plainField fs →
  readBlocks ((renderField <$> fs) ++ "}" :: more)%list
  = readBlocks more.
Proof.
  induction 1 as [|f fs Hf Hfs IH]; [done|].
  rewrite fmap_cons. cbn [app readBlocks].
  by rewrite readLine_field, IH.
Qed.

Lemma blockLines_app b (more : list string) :
  (blockLines b ++ more)%list
  = ("type " +:+ blkName b +:+ " " +:+ tableAnnotation (blkTable b))
    :: ((renderField <$> blkFields b) ++ "}" :: more)%list.
Proof.
  unfold blockLines. rewrite <- app_comm_cons.
  by rewrite <- (assoc_L (++)).
Qed.

Lemma readBlocks_lines doc :
  Forall plainBlock doc →
  readBlocks ((doc ≫= blockLines) ++ [EmptyString])%list
  = readBlock <$> doc.
Proof.
  induction 1 as [|b doc [Hname Hfields] Hdoc IH]; [done|].
  rewrite bind_cons, fmap_cons, <- (assoc_L (++)), blockLines_app.
  cbn [readBlocks]. rewrite readLine_header by done.
  by rewrite readFields_block, readBlocks_block, IH.
Qed.

Lemma unlines_cons l ls :
  unlines (l :: ls) = l +:+ String lineBreak (unlines ls).
Proof.
  unfold unlines. rewrite fmap_cons, concat_cons.
  by rewrite append_assoc.
Qed.

Lemma split_unlines ls :
  Forall oneLine ls →
  split lineBreak (unlines ls) = (ls ++ [EmptyString])%list.
Proof.
  induction 1 as [|l ls Hl Hls IH]; [done|].
  by rewrite unlines_cons, split_app, IH.
Qed.

Lemma readSdl_render doc :
  Forall plainBlock doc → readSdl (render doc) = readBlock <$> doc.
Proof.
  intros Hdoc. unfold readSdl, render.
  rewrite split_unlines; [by apply readBlocks_lines|].
  apply Forall_forall. intros l (b & Hl & Hb)%list_elem_of_bind.
  rewrite Forall_forall in Hdoc.
  pose proof (blockLines_one_line b (Hdoc b Hb)) as Hlines.
  rewrite Forall_forall in Hlines. by apply Hlines.
Qed.

End SdlTextFacts.

(** ** Properties of the introspection pipeline *)
Module IntrospectionFacts.
Import JsString JsStringFacts JsSplitFacts Introspection SdlTextFacts.

Section Pipeline.
Variable conv : Conventions.

#[local] Abbreviation buildSchema := (buildSchema conv).
#[local] Abbreviation document := (document conv).

(** *** The builder's invariants *)

Lemma buildSchema_lookup rows n t :
  buildSchema rows !! n = Some t →
  ∃ r, r ∈ rows ∧ rtName r = n ∧ t = collectTable conv r.
Proof.
  intros H%elem_of_list_to_map_2.
  apply list_elem_of_fmap in H as (r & [= -> ->] & Hr). eauto.
Qed.

Lemma buildSchema_name rows n t :
  buildSchema rows !! n = Some t → tblName t = n.
Proof. by intros (r & _ & <- & ->)%buildSchema_lookup. Qed.

Lemma foreignKey_source rows n t fk :
  buildSchema rows !! n = Some t → fk ∈ tblForeignKeys t →
  fkSourceTable fk = n.
Proof.
  intros (r & _ & <- & ->)%buildSchema_lookup. simpl.
  by intros (raw & -> & _)%list_elem_of_fmap.
Qed.

Lemma tables_spec (schema : gmap string Table) t :
  t ∈ tables schema ↔ ∃ n, schema !! n = Some t.
Proof.
  unfold tables, tableNames. rewrite list_elem_of_omap. split.
  - intros (n & _ & Hn). eauto.
  - intros (n & Hn). exists n. split; [|done].
    apply elem_of_elements, elem_of_dom. by eexists.
Qed.

Lemma size_buildSchema rows :
  size (buildSchema rows) = length (remove_dups (rtName <$> rows)).
Proof.
  unfold Introspection.buildSchema.
  rewrite <- size_dom, dom_list_to_map_L.
  rewrite <- list_fmap_compose.
  change (fst ∘ (λ r, (rtName r, collectTable conv r))) with rtName.
  assert (Hset : list_to_set (rtName <$> rows)
                 =@{gset string}
                 list_to_set (remove_dups (rtName <$> rows))).
  { apply set_eq. intros x.
    by rewrite !elem_of_list_to_set, elem_of_remove_dups. }
  rewrite Hset. apply size_list_to_set, NoDup_remove_dups.
Qed.

Lemma buildSchema_empty rows : size (buildSchema rows) = 0 ↔ rows = [].
Proof.
  rewrite size_buildSchema. destruct rows as [|r rows]; [done|].
  split; [|done]. intros Hlen%length_zero_iff_nil.
  assert (Hin : rtName r ∈ remove_dups (rtName <$> r :: rows))
    by (apply elem_of_remove_dups; by left).
  rewrite Hlen in Hin. by apply elem_of_nil in Hin.
Qed.

(** *** The classifier *)


Lemma referenced_spec (schema : gmap string Table) n :
  referenced schema n = true ↔
  ∃ m t fk, schema !! m = Some t ∧ fk ∈ tblForeignKeys t
            ∧ resolves schema fk = true ∧ fkTargetTable fk = n.
Proof.
  unfold referenced. rewrite existsb_exists. split.
  - intros (t & (m & Hm)%list_elem_of_In%tables_spec & Hfk).
    apply existsb_exists in Hfk as (fk & Hfk%list_elem_of_In & H).
    apply andb_true_iff in H as [Hres Htarget%bool_decide_eq_true].
    by exists m, t, fk.
  - intros (m & t & fk & Hm & Hfk & Hres & Htarget).
    exists t. split.
    + apply list_elem_of_In, tables_spec. eauto.
    + apply existsb_exists. exists fk.
      split; [by apply list_elem_of_In|].
      rewrite Hres. by apply bool_decide_eq_true.
Qed.

(** The target of a foreign key of the relation graph is never
    elided. *)
Lemma target_kept (schema : gmap string Table) m t fk target :
  schema !! m = Some t → fk ∈ tblForeignKeys t →
  resolves schema fk = true →
  tblName target = fkTargetTable fk →
  isJunctionTable schema target = false.
Proof.
  intros Hm Hfk Hres Hname. unfold isJunctionTable.
  assert (referenced schema (tblName target) = true) as ->.
  { apply referenced_spec. by exists m, t, fk. }
  by rewrite andb_false_r.
Qed.

Lemma classify_spec (schema : gmap string Table) r :
  r ∈ classify schema ↔
  ∃ n t, schema !! n = Some t ∧ r ∈ classifyTable schema t.
Proof.
  unfold classify. rewrite list_elem_of_bind. split.
  - intros (t & Hr & (n & Hn)%tables_spec). eauto.
  - intros (n & t & Hn & Hr). exists t. split; [done|].
    apply tables_spec. eauto.
Qed.

Lemma inline_classified (schema : gmap string Table) n t fk :
  schema !! n = Some t → isJunctionTable schema t = false →
  fk ∈ tblForeignKeys t → resolves schema fk = true →
  InlineRelation fk ∈ classify schema.
Proof.
  intros Hn Hj Hfk Hres. apply classify_spec. exists n, t.
  split; [done|]. unfold classifyTable. rewrite Hj.
  apply list_elem_of_fmap. exists fk. split; [done|].
  by apply list_elem_of_filter.
Qed.


(** *** The emitter *)

Lemma document_spec rows b :
  b ∈ document rows ↔
  ∃ n t, buildSchema rows !! n = Some t
         ∧ isJunctionTable (buildSchema rows) t = false
         ∧ b = emitTable (buildSchema rows)
                 (classify (buildSchema rows)) t.
Proof.
  unfold Introspection.document, emit.
  rewrite list_elem_of_fmap. split.
  - intros (t & -> & [Hj (n & Hn)%tables_spec]%list_elem_of_filter).
    by exists n, t.
  - intros (n & t & Hn & Hj & ->). exists t. split; [done|].
    apply list_elem_of_filter. split; [done|]. apply tables_spec. eauto.
Qed.

Lemma relation_field (schema : gmap string Table) relations t r f :
  r ∈ relations → f ∈ relationFields schema (tblName t) r →
  f ∈ blkFields (emitTable schema relations t).
Proof.
  intros Hr Hf. simpl. apply elem_of_app. right.
  apply list_elem_of_bind. eauto.
Qed.

Lemma plain_relation_field (schema : gmap string Table) n r f :
  f ∈ relationFields schema n r → plainField f.
Proof.
  destruct r as [fk|j fk1 fk2]; simpl; intros Hf;
    apply elem_of_app in Hf as [Hf|Hf];
    destruct (decide _); try (by apply elem_of_nil in Hf);
    apply list_elem_of_singleton in Hf as ->; split;
    unfold baseType; simpl;
    auto using inlineFieldName_alnum, backFieldName_alnum,
      listFieldName_alnum, typeName_alnum.
Qed.

Lemma plain_document rows : Forall plainBlock (document rows).
Proof.
  apply Forall_forall. intros b (n & t & _ & _ & ->)%document_spec.
  split; [apply typeName_alnum|].
  apply Forall_forall. intros f [Hf|Hf]%elem_of_app.
  - apply list_elem_of_fmap in Hf as (c & -> & _). split; simpl.
    + apply scalarFieldName_alnum.
    + unfold baseType. simpl. by destruct (colType c).
  - apply list_elem_of_bind in Hf as (r & Hf & _).
    by apply plain_relation_field in Hf.
Qed.

(** The text of a document declares its type blocks, one after the
    other, each with its fields. *)
Lemma readSdl_document rows :
  readSdl (render (document rows)) = readBlock <$> document rows.
Proof. apply readSdl_render, plain_document. Qed.

(** *** The introspector *)

Lemma introspect_success i name result :
  introspect conv i name = Introspected result →
  ∃ rows, connector i name = Discovered rows
          ∧ size (buildSchema rows) ≠ 0
          ∧ collisionFree (document rows) = true
          ∧ result = {| numTables := size (buildSchema rows);
                        sdl := render (document rows) |}.
Proof.
  unfold Introspection.introspect.
  destruct (connector i name) as [cause|cause|rows]; [done..|].
  simpl. case_decide; [done|].
  destruct (collisionFree (document rows)) eqn:Hfree; [|done].
  intros [= <-]. by exists rows.
Qed.

(** The blocks the text of a successful run declares. *)
Lemma readSdl_result i name rows result :
  introspect conv i name = Introspected result →
  connector i name = Discovered rows →
  readSdl (sdl result) = readBlock <$> document rows.
Proof.
  intros (rows' & Hconn & _ & _ & ->)%introspect_success Hrows.
  rewrite Hrows in Hconn. injection Hconn as <-.
  apply readSdl_document.
Qed.



(** *** Relation fields in the text *)

Lemma readField_inline schema fk :
  readField (inlineField schema fk)
  = {| rfName := inlineFieldName fk;
       rfType :=
         if fkNullable schema fk then typeName (fkTargetTable fk)
         else typeName (fkTargetTable fk) +:+ "!";
       rfAnnotation := inlineAnnotation fk |}.
Proof.
  unfold readField, renderFieldType, baseType. simpl.
  by destruct (fkNullable schema fk).
Qed.

Lemma readField_back schema fk :
  readField (backReferenceField schema fk)
  = {| rfName := backFieldName schema fk;
       rfType :=
         if oneToOne schema fk then typeName (fkSourceTable fk)
         else "[" +:+ typeName (fkSourceTable fk) +:+ "!]!";
       rfAnnotation := backReferenceAnnotation fk |}.
Proof.
  unfold readField, renderFieldType, baseType. simpl.
  by destruct (oneToOne schema fk).
Qed.

Lemma readField_list junction near far :
  readField (listField junction near far)
  = {| rfName := listFieldName near far;
       rfType := "[" +:+ typeName (fkTargetTable far) +:+ "!]!";
       rfAnnotation := relationTableAnnotation junction near far |}.
Proof. reflexivity. Qed.








(** *** Self-reference *)

Lemma length_capitalize w :
  String.length (capitalize w) = String.length w.
Proof. by destruct w. Qed.

Lemma length_pascalCase_cons w ws :
  String.length (pascalCase (w :: ws))
  = String.length w + String.length (pascalCase ws).
Proof. by rewrite pascalCase_cons, length_app, length_capitalize. Qed.

Lemma length_camelCase ws :
  String.length (camelCase ws) = String.length (pascalCase ws).
Proof.
  destruct ws as [|w ws]; [done|].
  by rewrite length_pascalCase_cons, <- length_app.
Qed.

(** The two ends of a self-referencing foreign key have names of
    different lengths: the back-reference carries the suffix. *)
Lemma self_reference_names schema fk :
  fkSourceTable fk = fkTargetTable fk →
  inlineFieldName fk ≠ backFieldName schema fk.
Proof.
  intros Hself Heq. apply (f_equal String.length) in Heq.
  unfold backFieldName, ambiguous, suffix in Heq.
  rewrite bool_decide_true in Heq by done. simpl in Heq.
  rewrite !length_app in Heq. simpl in Heq.
  rewrite !length_camelCase in Heq. unfold inlineFieldName in Heq.
  destruct (fkSourceColumns fk) as [|c cs].
  - rewrite length_camelCase, Hself in Heq. lia.
  - rewrite length_camelCase in Heq. lia.
Qed.

Lemma tables_names rows :
  tblName <$> tables (buildSchema rows)
  = tableNames (buildSchema rows).
Proof.
  unfold tables.
  assert (∀ n, n ∈ tableNames (buildSchema rows) →
               ∃ t, buildSchema rows !! n = Some t ∧ tblName t = n)
    as Hall.
  { intros n Hin. unfold tableNames in Hin.
    apply elem_of_elements, elem_of_dom in Hin as [t Ht]. exists t.
    split; [done|]. by apply buildSchema_name in Ht. }
  induction (tableNames (buildSchema rows)) as [|n names IH]; [done|].
  destruct (Hall n) as (t & Ht & Hname); [by left|].
  simpl. rewrite Ht. simpl. rewrite Hname. f_equal.
  apply IH. intros m Hm. apply Hall. by right.
Qed.

Lemma NoDup_fmap_filter {A B} (f : A → B) (P : A → Prop)
    `{∀ x, Decision (P x)} (l : list A) :
  NoDup (f <$> l) → NoDup (f <$> filter P l).
Proof.
  induction l as [|x l IH]; [done|].
  rewrite fmap_cons. intros [Hx Hl]%NoDup_cons.
  rewrite filter_cons. destruct (decide (P x)); [|by apply IH].
  rewrite fmap_cons. apply NoDup_cons. split; [|by apply IH].
  intros (y & Hy & [_ Hin]%list_elem_of_filter)%list_elem_of_fmap.
  apply Hx, list_elem_of_fmap. by exists y.
Qed.

Lemma NoDup_fmap_eq {A B} (f : A → B) (l : list A) x y :
  NoDup (f <$> l) → x ∈ l → y ∈ l → f x = f y → x = y.
Proof.
  induction l as [|z l IH]; [by intros _ ?%elem_of_nil|].
  rewrite fmap_cons. intros [Hz Hl]%NoDup_cons.
  intros [->|Hx]%elem_of_cons [->|Hy]%elem_of_cons Heq; [done| | |].
  - destruct Hz. apply list_elem_of_fmap. by exists y.
  - destruct Hz. apply list_elem_of_fmap. by exists x.
  - by apply IH.
Qed.

(** A table has at most one type block. *)
Lemma document_tables rows : NoDup (blkTable <$> document rows).
Proof.
  unfold Introspection.document, emit.
  rewrite <- list_fmap_compose.
  change (blkTable ∘ emitTable _ _) with tblName.
  apply NoDup_fmap_filter. rewrite tables_names. unfold tableNames.
  apply NoDup_elements.
Qed.

(** C7 (amended): in the text of a successful run, a table with a foreign key
    to itself that names existing columns has exactly one type block,
    and the block declares two fields for the foreign key, the
    inline end and the back-reference end, under two different
    names. *)
Theorem self_reference_fields i name rows result n t fk :
  introspect conv i name = Introspected result →
  connector i name = Discovered rows →
  buildSchema rows !! n = Some t →
  fk ∈ tblForeignKeys t →
  fkTargetTable fk = n →
  resolves (buildSchema rows) fk = true →
  ∃ b,
    b ∈ readSdl (sdl result)
    ∧ rbAnnotation b = tableAnnotation n
    ∧ (∀ b', b' ∈ readSdl (sdl result) →
             rbAnnotation b' = tableAnnotation n → b' = b)
    ∧ {| rfName := inlineFieldName fk;
         rfType :=
           if fkNullable (buildSchema rows) fk then typeName n
           else typeName n +:+ "!";
         rfAnnotation := inlineAnnotation fk |} ∈ rbFields b
    ∧ {| rfName := backFieldName (buildSchema rows) fk;
         rfType :=
           if oneToOne (buildSchema rows) fk then typeName n
           else "[" +:+ typeName n +:+ "!]!";
         rfAnnotation := backReferenceAnnotation fk |} ∈ rbFields b
    ∧ inlineFieldName fk ≠ backFieldName (buildSchema rows) fk.
Proof.
  intros Hrun Hrows Hn Hfk Htarget Hres.
  pose proof (foreignKey_source _ _ _ _ Hn Hfk) as Hsrc.
  pose proof (buildSchema_name _ _ _ Hn) as Hname.
  assert (isJunctionTable (buildSchema rows) t = false) as Hj.
  { apply (target_kept _ n t fk); [done..|]. by rewrite Hname. }
  pose proof (inline_classified _ _ _ _ Hn Hj Hfk Hres) as Hr.
  set (block := emitTable (buildSchema rows)
                  (classify (buildSchema rows)) t).
  assert (block ∈ document rows) as Hblock
    by (apply document_spec; by exists n, t).
  exists (readBlock block).
  rewrite (readSdl_result _ _ _ _ Hrun Hrows).
  split; [|split; [|split; [|split; [|split]]]].
  - apply list_elem_of_fmap. by exists block.
  - simpl. by rewrite Hname.
  - intros b' (b0 & -> & Hb0)%list_elem_of_fmap Hann.
    apply tableAnnotation_inj in Hann. f_equal.
    apply (NoDup_fmap_eq blkTable (document rows));
      [apply document_tables|done..|].
    by rewrite Hann.
  - pose proof (readField_inline (buildSchema rows) fk) as E.
    rewrite Htarget in E. rewrite <- E.
    apply list_elem_of_fmap. eexists. split; [done|].
    apply (relation_field _ _ _ (InlineRelation fk) _ Hr).
    simpl. rewrite Hname, decide_True by done. by left.
  - pose proof (readField_back (buildSchema rows) fk) as E.
    rewrite Hsrc in E. rewrite <- E.
    apply list_elem_of_fmap. eexists. split; [done|].
    apply (relation_field _ _ _ (InlineRelation fk) _ Hr).
    simpl. apply elem_of_app. right.
    rewrite Hname, decide_True by done. by left.
  - apply self_reference_names. by rewrite Hsrc, Htarget.
Qed.


(** C6: introspection fails with the empty-schema error exactly when
    the connector answers with zero tables, so the error tells an
    empty schema from a connector failure, and a success never stands
    for zero tables. *)
Theorem empty_schema_fatal i name :
  (∀ s, introspect conv i name = Fatal (EmptySchema s)
        ↔ s = name ∧ connector i name = Discovered [])
  ∧ (∀ result, introspect conv i name = Introspected result →
               numTables result ≠ 0 ∧ connector i name ≠ Discovered []).
Proof.
  split.
  - intros s. unfold Introspection.introspect.
    destruct (connector i name) as [cause|cause|rows].
    + split; [done|]. by intros [_ ?].
    + split; [done|]. by intros [_ ?].
    + simpl. case_decide as Hsize.
      * apply buildSchema_empty in Hsize as ->. split.
        -- by intros [= <-].
        -- by intros [-> _].
      * assert (rows ≠ []) by (intros ->; by apply Hsize).
        destruct (collisionFree (document rows)); split;
          try done; intros [_ [= ->]]; done.
  - intros result (rows & Hconn & Hsize & _ & ->)%introspect_success.
    split; [done|]. rewrite Hconn. intros [= ->]. by apply Hsize.
Qed.

(** *** Two listings of one schema *)

































End Pipeline.

(** Equations and memberships between closed terms, settled by
    evaluating them. *)
Ltac evaluate :=
  lazymatch goal with
  | |- ?a = ?b => vm_cast_no_check (@eq_refl _ b)
  | |- _ ∈ _ => apply (bool_decide_unpack _); vm_compute; exact I
  end.

(** The four tests of relations.test.ts, in outline. *)
Example relation_table_outline :
  outline (textOf relationTableRows)
  = [("Bill", [("id", "Int!"); ("bill", "String!");
               ("products", "[Product!]!")]);
     ("Product", [("id", "Int!"); ("product", "String!");
                  ("bills", "[Bill!]!")])].
Proof. evaluate. Qed.

Example extra_column_outline :
  outline (textOf extraColumnRows)
  = [("BillProduct", [("someOtherColumn", "String!"); ("bill", "Bill");
                      ("product", "Product")]);
     ("Bill", [("id", "Int!"); ("bill", "String!");
               ("billProducts", "[BillProduct!]!")]);
     ("Product", [("id", "Int!"); ("product", "String!");
                  ("billProducts", "[BillProduct!]!")])].
Proof. evaluate. Qed.

Example inline_nullable_outline :
  outline (textOf (inlineRows true))
  = [("Bill", [("id", "Int!"); ("bill", "String!");
               ("product", "Product")]);
     ("Product", [("id", "Int!"); ("description", "String!");
                  ("bills", "[Bill!]!")])].
Proof. evaluate. Qed.

Example inline_not_null_outline :
  outline (textOf (inlineRows false))
  = [("Bill", [("id", "Int!"); ("bill", "String!");
               ("product", "Product!")]);
     ("Product", [("id", "Int!"); ("description", "String!");
                  ("bills", "[Bill!]!")])].
Proof. evaluate. Qed.







(** C7, as stated, fails on a tree whose parent refers to a column the
    table does not have: the foreign key is dangling, the run succeeds,
    and the type of [node] has no relation field. *)
Lemma dangling_self_reference_counterexample :
  let schema := buildSchema pgConventions danglingNodeRows in
  let fk :=
    {| fkSourceTable := "node"; fkSourceColumns := ["parent_id"];
       fkTargetTable := "node"; fkTargetColumns := ["uid"];
       fkOnUpdate := Cascade; fkOnDelete := NoAction |} in
  schema !! "node" = Some (tableOf (nodeTable "uid"))
  ∧ tblForeignKeys (tableOf (nodeTable "uid")) = [fk]
  ∧ fkTargetTable fk = fkSourceTable fk
  ∧ runOn danglingNodeRows = Introspected (resultOf danglingNodeRows)
  ∧ outline (textOf danglingNodeRows)
    = [("Node", [("id", "Int!"); ("label", "String!");
                 ("parentId", "Int")])].
Proof. repeat split; evaluate. Qed.

(** A tree of nodes: the type of [node] declares [parent] and
    [nodesByParent]. *)
Lemma self_reference_fields_witness :
  let fk := foreignKey "node" "parent_id" "node" NoAction in
  inlineFieldName fk ≠ backFieldName (buildSchema pgConventions nodeRows) fk
  ∧ outline (textOf nodeRows)
    = [("Node", [("id", "Int!"); ("label", "String!"); ("parent", "Node");
                 ("nodesByParent", "[Node!]!")])].
Proof.
  intros fk.
  destruct (self_reference_fields pgConventions
              (fixedConnector nodeRows) "DatabaseIntrospector"
              nodeRows (resultOf nodeRows) "node" (tableOf (nodeTable "id"))
              fk ltac:(evaluate) eq_refl ltac:(evaluate) ltac:(evaluate)
              eq_refl ltac:(evaluate))
    as (b & _ & _ & _ & _ & _ & Hnames).
  split; [exact Hnames|evaluate].
Defined.


(** A schema without tables. *)
Lemma empty_schema_fatal_witness :
  introspect pgConventions (fixedConnector []) "DatabaseIntrospector"
  = Fatal (EmptySchema "DatabaseIntrospector").
Proof.
  apply (proj1 (empty_schema_fatal pgConventions (fixedConnector [])
                  "DatabaseIntrospector") "DatabaseIntrospector").
  split; reflexivity.
Defined.



End IntrospectionFacts.

(** ** Properties of [slugify] and [isValidProjectName] *)
Module DeployCommandFacts.
Import JsString JsStringFacts JsSplitFacts DeployCommand DeleteCommand.

Lemma slugChar_of_lower_word a :
  negb (isUpper a) = true →
  isNeitherWordNorDash a || isSlugChar a = true.
Proof.
  unfold isNeitherWordNorDash, isSlugChar, isWord.
  intros ->%negb_true_iff. simpl.
  by destruct (isLower a), (isDigit a), (isUnderscore a), (isDash a).
Qed.

Lemma slugChar_plain a :
  isSlugChar a = true →
  isSpace a = false ∧ isNeitherWordNorDash a = false
  ∧ isUpper a = false ∧ inRange 192 222 a = false.
Proof. by destruct a as [[] [] [] [] [] [] [] []]. Qed.

Lemma collapsed_flag text :
  collapsed text
  = replaceRunsFlag isDash "-" false
      (replaceRunsFlag isNeitherWordNorDash EmptyString false
         (replaceRunsFlag isSpace "-" false (toLowerCase text))).
Proof.
  unfold collapsed, replaceRuns.
  by rewrite replaceRunsFrom_dashes, !replaceRunsFrom_one.
Qed.

Lemma collapsed_chars text : allChars isSlugChar (collapsed text) = true.
Proof.
  rewrite collapsed_flag.
  apply replaceRunsFlag_chars; [done|].
  apply (allChars_impl isSlugChar);
    [intros a Ha; simpl; by rewrite Ha, orb_true_r|].
  apply replaceRunsFlag_chars; [done|].
  apply (allChars_impl (λ a, negb (isUpper a)));
    [apply slugChar_of_lower_word|].
  apply replaceRunsFlag_chars; [done|].
  apply (allChars_impl (λ a, negb (isUpper a)));
    [intros a Ha; simpl; by rewrite Ha, orb_true_r|].
  apply toLowerCase_not_upper.
Qed.

Lemma slug_chars (text : string) :
  allChars isSlugChar (slugify text) = true.
Proof.
  apply stripEnd_chars, stripStart_chars, collapsed_chars.
Qed.

Lemma slug_dashes (text : string) :
  firstChar (λ a, negb (isDash a)) (slugify text) = true
  ∧ lastChar (λ a, negb (isDash a)) (slugify text) = true
  ∧ noTwoInARow isDash (slugify text) = true.
Proof.
  unfold slugify. fold (collapsed text). split; [|split].
  - apply stripEnd_first, stripStart_first.
  - apply stripEnd_last.
  - apply stripEnd_noTwo, stripStart_noTwo.
    rewrite collapsed_flag. apply replaceRunsFlag_shape.
Qed.

(** A text that already has the form of a slug is its own slug. *)
Lemma slugify_fixed (text : string) :
  allChars isSlugChar text = true →
  firstChar (λ a, negb (isDash a)) text = true →
  lastChar (λ a, negb (isDash a)) text = true →
  noTwoInARow isDash text = true →
  slugify text = text.
Proof.
  intros Hchars Hfirst Hlast Hno.
  unfold slugify. fold (collapsed text). rewrite collapsed_flag.
  rewrite toLowerCase_id
    by (eapply allChars_impl; [|exact Hchars];
        intros a (_ & _ & -> & ->)%slugChar_plain; done).
  rewrite (replaceRunsFlag_id isSpace)
    by (eapply allChars_impl; [|exact Hchars];
        intros a (-> & _)%slugChar_plain; done).
  rewrite (replaceRunsFlag_id isNeitherWordNorDash)
    by (eapply allChars_impl; [|exact Hchars];
        intros a (_ & -> & _)%slugChar_plain; done).
  rewrite replaceRunsFlag_dashes_id by done.
  rewrite stripStart_id by done. by apply stripEnd_id.
Qed.

(** X1: a slug is made of lower-case letters, digits, underscores and
    dashes only, whatever the text. *)
Theorem slugify_chars (text : string) :
  allChars isSlugChar (slugify text) = true.
Proof. exact (slug_chars text). Qed.

(** X2: a slug neither starts nor ends with a dash and has no two
    dashes in a row. *)
Theorem slugify_dashes (text : string) :
  firstChar (λ a, negb (isDash a)) (slugify text) = true
  ∧ lastChar (λ a, negb (isDash a)) (slugify text) = true
  ∧ noTwoInARow isDash (slugify text) = true.
Proof. exact (slug_dashes text). Qed.

(** X3: [slugify] is idempotent: the slug of a slug is the slug. *)
Theorem slugify_idempotent (text : string) :
  slugify (slugify text) = slugify text.
Proof.
  destruct (slug_dashes text) as (Hfirst & Hlast & Hno).
  apply slugify_fixed; [apply slug_chars|done..].
Qed.

(** X4: no slug is a valid project name: [isValidProjectName] asks for
    a capital first letter and [slugify] leaves none. *)
Theorem slug_not_project_name (text : string) :
  isValidProjectName (slugify text) = false.
Proof.
  pose proof (allChars_firstChar _ _ (slug_chars text)) as H.
  destruct (slugify text) as [|a s]; [done|]. simpl in *.
  by apply slugChar_plain in H as (_ & _ & -> & _).
Qed.

(** X5: the texts [slugify] leaves as they are are exactly the slugs:
    made of lower-case letters, digits, underscores and dashes, with no
    dash at either end and no two dashes in a row. *)
Theorem slugify_fixed_points (text : string) :
  slugify text = text ↔
  allChars isSlugChar text = true
  ∧ firstChar (λ a, negb (isDash a)) text = true
  ∧ lastChar (λ a, negb (isDash a)) text = true
  ∧ noTwoInARow isDash text = true.
Proof.
  split.
  - intros <-. split; [apply slug_chars|apply slug_dashes].
  - intros (Hchars & Hfirst & Hlast & Hno). by apply slugify_fixed.
Qed.

(** *** Made-up names *)

Lemma pretty_go_digits (x : N) (s : string) :
  allChars isDigit s = true →
  allChars isDigit (pretty.pretty_N_go x s) = true.
Proof.
  revert s. induction (N.lt_wf_0 x) as [x _ IH]; intros s Hs.
  destruct (decide (x = 0)%N) as [->|Hx];
    [by rewrite pretty.pretty_N_go_0|].
  rewrite pretty.pretty_N_go_step by lia.
  apply IH; [apply N.div_lt; lia|].
  simpl. rewrite Hs, andb_true_r.
  unfold pretty.pretty_N_char. by repeat case_match.
Qed.

Lemma decimal_digits (n : nat) : allChars isDigit (decimal n) = true.
Proof.
  unfold decimal, pretty.pretty, pretty.pretty_N.
  destruct (decide _); [done|]. by apply pretty_go_digits.
Qed.

Lemma digit_not_dash a : isDigit a = true → isNot dash a = true.
Proof. by destruct a as [[] [] [] [] [] [] [] []]. Qed.

Lemma sillyChar_of_slugChar a :
  isSlugChar a = true → isNot dash a = true → isSillyChar a = true.
Proof. by destruct a as [[] [] [] [] [] [] [] []]. Qed.

Lemma sillyChar_not_dash a : isSillyChar a = true → isNot dash a = true.
Proof. by destruct a as [[] [] [] [] [] [] [] []]. Qed.

Lemma silly_word (sillyname : string) :
  ∃ word,
    head (split dash (slugify sillyname)) = Some word
    ∧ allChars isSillyChar word = true.
Proof.
  pose proof (split_parts dash (slugify sillyname)) as Hfree.
  pose proof (split_keeps isSlugChar dash _ (slug_chars sillyname))
    as Hslug.
  destruct (split_cons dash (slugify sillyname)) as (w & ws & E).
  rewrite E in *. exists w. split; [done|].
  inversion Hfree as [|? ? Hw _]; inversion Hslug as [|? ? Hw' _]; subst.
  clear -Hw Hw'. induction w as [|a w IH]; [done|]. simpl in *.
  apply andb_true_iff in Hw as [Ha Hw].
  apply andb_true_iff in Hw' as [Ha' Hw'].
  by rewrite (sillyChar_of_slugChar a Ha' Ha), IH.
Qed.

(** X6: a public name has exactly three parts between dashes: the
    word [public], the first dash-separated part of the slug of the
    made-up name (a word of lower-case letters, digits and underscores,
    possibly empty) and the digits of the number. *)
Theorem getPublicName_parts (sillyname : string) (random : nat) :
  ∃ word,
    head (split dash (slugify sillyname)) = Some word
    ∧ split dash (getPublicName sillyname random)
      = ["public"; word; decimal random]
    ∧ allChars isSillyChar word = true
    ∧ allChars isDigit (decimal random) = true.
Proof.
  destruct (silly_word sillyname) as (word & Hhead & Hword).
  exists word. split; [done|].
  split; [|split; [done|apply decimal_digits]].
  unfold getPublicName, getSillyName. rewrite Hhead. simpl default.
  change ("public-" +:+ word +:+ "-" +:+ decimal random)
    with ("public" +:+ String dash (word +:+ String dash (decimal random))).
  rewrite split_app by done.
  rewrite split_app
    by (apply (allChars_impl isSillyChar);
        [apply sillyChar_not_dash|done]).
  rewrite split_free
    by (apply (allChars_impl isDigit);
        [apply digit_not_dash|apply decimal_digits]).
  done.
Qed.

(** *** What [printResult] prints *)

Section Output.
Variables SchemaError MigrationStep : Type.
Variables chalk_bold chalk_bold_red chalk_bold_yellow chalk_cyan
  : string → string.

#[local] Abbreviation printResult' :=
  (@printResult SchemaError MigrationStep
     chalk_bold chalk_bold_red chalk_bold_yellow chalk_cyan).

(** X7: [printResult] ends the process, with code 1, exactly when
    the payload has errors or has warnings that are not forced;
    otherwise it returns. *)
Theorem printResult_ending (payload : DeployPayload SchemaError
                                        MigrationStep) (force : bool) :
  ending (printResult' payload force)
  = if nonEmpty (errors payload)
       || (nonEmpty (warnings payload) && negb force)
    then Exited 1 else Returned.
Proof.
  unfold printResult.
  destruct (nonEmpty (errors payload)); [done|].
  destruct (nonEmpty (warnings payload)), force; simpl; try done;
    destruct (migration payload) as [m|]; try done;
    by destruct (steps m).
Qed.

(** X8: when the payload has errors, what is printed depends on the
    errors alone: the warnings and the changes are not printed and
    the force flag does not matter. *)
Theorem printResult_errors (payload other : DeployPayload SchemaError
                                              MigrationStep)
    (force force' : bool) :
  nonEmpty (errors payload) = true →
  errors other = errors payload →
  printResult' other force' = printResult' payload force
  ∧ ∀ p, p ∈ printed (printResult' payload force) →
         (∃ text, p = Log text)
         ∨ p = PrintErrors (default [] (errors payload)).
Proof.
  intros Herrors Hsame. unfold printResult.
  rewrite Hsame, Herrors. split; [done|].
  intros p Hp. simpl in Hp.
  inversion_clear Hp as [|? ? ? H1]; [left; eexists; reflexivity|].
  inversion_clear H1 as [|? ? ? H2]; [right; reflexivity|].
  inversion_clear H2 as [|? ? ? H3]; [left; eexists; reflexivity|].
  inversion_clear H3 as [|? ? ? H4]; [left; eexists; reflexivity|].
  inversion H4.
Qed.

End Output.

Lemma prefix_one (c a : Ascii.ascii) (rest : string) :
  String.prefix (String c EmptyString) (String a rest)
  = if Ascii.ascii_dec c a then true else false.
Proof.
  cbn [String.prefix]. destruct (Ascii.ascii_dec c a); [|done].
  by destruct rest.
Qed.

(** X9: the deletion is called off, with exit code 0, exactly when
    the answer to the prompt starts with [n] or [N]; every other
    answer, the empty one included, lets it go on. *)
Theorem askForConfirmation_exits (confirmation : string) :
  (askForConfirmation confirmation = Exited 0 ↔
   ∃ rest, confirmation = "n" +:+ rest ∨ confirmation = "N" +:+ rest)
  ∧ (askForConfirmation confirmation = Returned
     ∨ askForConfirmation confirmation = Exited 0).
Proof.
  unfold askForConfirmation, startsWith.
  destruct confirmation as [|a rest].
  - split; [|by left]. split; [done|]. by intros (? & [?|?]).
  - cbn [toLowerCase]. rewrite prefix_one.
    destruct (Ascii.ascii_dec _ (lowerChar a)) as [Hn|Hn].
    + split; [|by right]. split; [|done]. intros _.
      exists rest. revert Hn. clear.
      destruct a as [[] [] [] [] [] [] [] []];
        first [discriminate|intros _; left; reflexivity
              |intros _; right; reflexivity].
    + split; [|by left]. split; [done|].
      intros (rest' & [H|H]); rewrite app_cons, app_nil_l in H;
        injection H as -> _; by destruct Hn.
Qed.

(** *** The theorems at examples *)

Lemma printResult_errors_witness :
  printResult (SchemaError := string) (MigrationStep := string)
    DefinitionFile.plain DefinitionFile.plain DefinitionFile.plain
    DefinitionFile.plain
    {| errors := Some ["Type Post is missing"]; warnings := None;
       migration := None |} true
  = printResult DefinitionFile.plain DefinitionFile.plain
      DefinitionFile.plain DefinitionFile.plain
      {| errors := Some ["Type Post is missing"];
         warnings := Some ["You are removing a field"];
         migration := Some {| revision := 2; steps := ["CreateType"] |} |}
      false.
Proof.
  apply (proj1 (printResult_errors string string DefinitionFile.plain
           DefinitionFile.plain DefinitionFile.plain DefinitionFile.plain
           {| errors := Some ["Type Post is missing"];
              warnings := Some ["You are removing a field"];
              migration :=
                Some {| revision := 2; steps := ["CreateType"] |} |}
           {| errors := Some ["Type Post is missing"]; warnings := None;
              migration := None |} false true eq_refl eq_refl)).
Defined.

End DeployCommandFacts.

(** ** Properties of the service definition *)
Module DefinitionFileFacts.
Import Js JsString JsStringFacts JsSplitFacts DefinitionFile.

(** A secret character: neither white space nor a comma. *)
#[local] Abbreviation secretChar :=
  (λ a : Ascii.ascii, negb (isSpace a) && isNot comma a).

Lemma parseSecrets_truthy (secret : option string) :
  truthyOpt secret = true →
  parseSecrets secret
  = Some (split comma
            (replaceEach isSpace EmptyString (default EmptyString secret))).
Proof.
  destruct secret as [s|]; [|done]. simpl. unfold parseSecrets.
  by intros ->.
Qed.

Lemma parseSecrets_falsy (secret : option string) :
  truthyOpt secret = false → parseSecrets secret = None.
Proof.
  destruct secret as [s|]; [|done]. simpl. unfold parseSecrets.
  by intros ->.
Qed.

Lemma stripped_parts (s : string) :
  Forall (λ w, allChars secretChar w = true)
    (split comma (replaceEach isSpace EmptyString s)).
Proof.
  pose proof (split_parts comma (replaceEach isSpace EmptyString s)) as H1.
  pose proof (split_keeps (λ a, negb (isSpace a)) comma _
                (replaceEach_removes isSpace s)) as H2.
  revert H1 H2. generalize (split comma (replaceEach isSpace EmptyString s)).
  intros l H1 H2. induction H1 as [|w l Hw Hl IH]; [constructor|].
  inversion H2; subst. constructor; [by apply allChars_and|by apply IH].
Qed.

Lemma parseSecrets_split (secret : option string) :
  truthyOpt secret = true →
  ∃ first rest,
    parseSecrets secret = Some (first :: rest)
    ∧ join comma (first :: rest)
      = replaceEach isSpace EmptyString (default EmptyString secret)
    ∧ Forall (λ w, allChars secretChar w = true) (first :: rest).
Proof.
  intros Htruthy. rewrite (parseSecrets_truthy _ Htruthy).
  pose proof (join_split comma
    (replaceEach isSpace EmptyString (default EmptyString secret))) as Hj.
  pose proof (stripped_parts (default EmptyString secret)) as Hp.
  destruct (split_cons comma
    (replaceEach isSpace EmptyString (default EmptyString secret)))
    as (first & rest & E).
  rewrite E in *. by exists first, rest.
Qed.

(** X10: a non-empty [secret] of prisma.yml is stored as a non-empty
    list of secrets that contain neither white space nor commas, and
    joining them with commas gives back the secret without its white
    space. *)
Theorem parseSecrets_parts (secret : option string) :
  truthyOpt secret = true →
  ∃ first rest,
    parseSecrets secret = Some (first :: rest)
    ∧ join comma (first :: rest)
      = replaceEach isSpace EmptyString (default EmptyString secret)
    ∧ Forall (λ w, allChars secretChar w = true) (first :: rest).
Proof. exact (parseSecrets_split secret). Qed.

Section Environment.
Variable PRISMA_MANAGEMENT_API_ENDPOINT : option string.
Variable parseEndpoint : string → completion ParsedEndpoint.
Variable clusterByName : option string → option PrismaDefinition.Cluster.
Variables chalk_bold chalk_yellow chalk_bold_green : string → string.
Variable existsSync : string → bool.
Variable readFileSync : string → completion string.
Variable path_join : string → string → string.
Variable jwt_sign :
  PrismaDefinition.TokenPayload → option string →
  PrismaDefinition.SignOptions → completion string.

#[local] Abbreviation endpoint' :=
  (endpoint PRISMA_MANAGEMENT_API_ENDPOINT).
#[local] Abbreviation service' :=
  (service PRISMA_MANAGEMENT_API_ENDPOINT parseEndpoint chalk_yellow).
#[local] Abbreviation stage' :=
  (stage PRISMA_MANAGEMENT_API_ENDPOINT parseEndpoint chalk_yellow).
#[local] Abbreviation cluster' :=
  (cluster PRISMA_MANAGEMENT_API_ENDPOINT parseEndpoint chalk_yellow).
#[local] Abbreviation clusterBaseUrl' :=
  (clusterBaseUrl PRISMA_MANAGEMENT_API_ENDPOINT parseEndpoint).
#[local] Abbreviation getClusterName' :=
  (getClusterName PRISMA_MANAGEMENT_API_ENDPOINT parseEndpoint
     chalk_yellow).
#[local] Abbreviation getWorkspace' :=
  (getWorkspace PRISMA_MANAGEMENT_API_ENDPOINT parseEndpoint).
#[local] Abbreviation lacksWorkspace' :=
  (lacksWorkspace PRISMA_MANAGEMENT_API_ENDPOINT parseEndpoint).
#[local] Abbreviation validate' :=
  (validate PRISMA_MANAGEMENT_API_ENDPOINT parseEndpoint clusterByName
     chalk_bold chalk_yellow chalk_bold_green).
#[local] Abbreviation getTypesString' :=
  (getTypesString existsSync readFileSync path_join).
#[local] Abbreviation forEachTypes' :=
  (forEachTypes existsSync readFileSync path_join).
#[local] Abbreviation loadDefinition' :=
  (loadDefinition existsSync readFileSync path_join).

Lemma bind_return {A B} (c : completion A) (k : A → completion B) b :
  c ≫= k = Return b → ∃ a, c = Return a ∧ k a = Return b.
Proof.
  destruct c as [a|m]; cbv [mbind completion_bind]; [by exists a|done].
Qed.

Lemma bind_throw {A B} (c : completion A) (k : A → completion B) m :
  c ≫= k = Throw m → c = Throw m ∨ ∃ a, c = Return a ∧ k a = Throw m.
Proof.
  destruct c as [a|m']; cbv [mbind completion_bind]; intros H;
    [right; by exists a|injection H as ->; by left].
Qed.

(** X11: once [loadDefinition] has run, [getToken] signs with the text
    of the secret before its first comma, white space removed; it
    returns [undefined] without signing exactly when prisma.yml has
    no secret or an empty one. *)
Theorem getToken_after_load (this this' : Instance)
    (read : PrismaDefinitionProps) (serviceName stageName : string) :
  loadDefinition' this read = Return this' →
  (truthyOpt (ymlSecret read) = false →
   PrismaDefinition.getToken jwt_sign (asClass this')
     serviceName stageName = Return None)
  ∧ (truthyOpt (ymlSecret read) = true →
     ∃ key rest,
       join comma (key :: rest)
       = replaceEach isSpace EmptyString
           (default EmptyString (ymlSecret read))
       ∧ allChars secretChar key = true
       ∧ PrismaDefinition.getToken jwt_sign (asClass this')
           serviceName stageName
         = cmap Some
             (jwt_sign
                {| PrismaDefinition.data :=
                     {| PrismaDefinition.service :=
                          serviceName +:+ "@" +:+ stageName;
                        PrismaDefinition.roles := ["admin"] |} |}
                (Some key)
                {| PrismaDefinition.expiresIn := "7d" |})).
Proof.
  unfold loadDefinition. intros Hload.
  apply bind_return in Hload as (text & _ & Hload).
  apply bind_return in Hload as (types & _ & Hload).
  injection Hload as <-. unfold PrismaDefinition.getToken, asClass.
  simpl. split.
  - intros Hfalsy. by rewrite (parseSecrets_falsy _ Hfalsy).
  - intros Htruthy.
    destruct (parseSecrets_split _ Htruthy)
      as (key & rest & -> & Hjoin & Hall).
    exists key, rest. inversion Hall; subst. by repeat split.
Qed.

(** *** The getters *)

#[local] Abbreviation truthyOnly :=
  (λ o : option string, if truthyOpt o then o else None).

Lemma declaredCluster_some this c :
  declaredCluster this = Some c ↔
  ∃ d, definition this = Some d ∧ ymlCluster d = Some c
       ∧ truthy_string c = true.
Proof.
  unfold declaredCluster. split.
  - destruct (definition this) as [d|]; [|done]. simpl.
    destruct (ymlCluster d) as [c'|] eqn:Hc; [|done].
    destruct (truthy_string c') eqn:E; [|done].
    intros [= <-]. by exists d.
  - intros (d & -> & Hc & Ht). simpl. by rewrite Hc, Ht.
Qed.

Lemma declaredCluster_none this d :
  definition this = Some d → declaredCluster this = None →
  truthyOpt (ymlCluster d) = false.
Proof.
  unfold declaredCluster. intros ->. simpl.
  destruct (ymlCluster d) as [c|]; [|done]. simpl.
  by destruct (truthy_string c).
Qed.

Lemma endpoint_truthy this :
  truthyOpt (endpoint' this) = true →
  ∃ e, endpoint' this = Some e ∧ truthy_string e = true.
Proof. destruct (endpoint' this) as [e|]; [by exists e|done]. Qed.

Lemma last_split sep s :
  ∃ parts name,
    split sep s = (parts ++ [name])%list
    ∧ last (split sep s) = Some name
    ∧ allChars (isNot sep) name = true.
Proof.
  pose proof (split_parts sep s) as Hall.
  destruct (split sep s) as [|w ws] eqn:E using rev_ind.
  - by destruct (split_not_nil sep s).
  - exists ws, w. rewrite last_snoc. split; [done|split; [done|]].
    apply Forall_app in Hall as [_ Hw]. by inversion Hw.
Qed.

(** X12: a non-empty [cluster] property of prisma.yml is read as it
    stands: [getClusterName] returns its text after the last slash
    and never throws, [clusterBaseUrl] is undefined, while the getter
    [cluster] returns the property only when no endpoint is set and
    throws the deprecation error when one is. *)
Theorem declared_cluster_property this d c :
  definition this = Some d → ymlCluster d = Some c →
  truthy_string c = true →
  (∃ parts name,
     getClusterName' this = Return (Some name)
     ∧ join slash (parts ++ [name])%list = c
     ∧ allChars (isNot slash) name = true)
  ∧ clusterBaseUrl' this = Return None
  ∧ cluster' this
    = if truthyOpt (endpoint' this)
      then Throw (deprecationMessage chalk_yellow)
      else Return (Some c).
Proof.
  intros Hd Hc Ht. split; [|split].
  - unfold getClusterName.
    assert (declaredCluster this = Some c) as ->
      by (apply declaredCluster_some; by exists d).
    destruct (last_split slash c) as (parts & name & Hs & Hl & Hn).
    exists parts, name. rewrite Hl, <- Hs. by rewrite join_split.
  - unfold clusterBaseUrl. rewrite Hd, Hc. simpl. by rewrite Ht.
  - unfold cluster. rewrite Hd, Hc. simpl. rewrite Ht.
    destruct (truthyOpt (endpoint' this)); by simpl.
Qed.

(** X13: without an endpoint, in prisma.yml or in the environment,
    no getter throws or parses anything: [service], [stage] and
    [cluster] return the non-empty properties of prisma.yml,
    [getClusterName] the last segment of the cluster property, and
    [getWorkspace] its first segment when it has a slash. *)
Theorem getters_without_endpoint this :
  truthyOpt (endpoint' this) = false →
  service' this = Return (truthyOnly (definition this ≫= ymlService))
  ∧ stage' this = Return (truthyOnly (definition this ≫= ymlStage))
  ∧ cluster' this = Return (truthyOnly (definition this ≫= ymlCluster))
  ∧ clusterBaseUrl' this = Return None
  ∧ getClusterName' this
    = Return (declaredCluster this ≫= λ c, last (split slash c))
  ∧ getWorkspace' this
    = Return (declaredCluster this ≫= λ c,
                if (1 <? length (split slash c))%nat
                then head (split slash c) else None).
Proof.
  intros He.
  assert (cluster' this
          = Return (truthyOnly (definition this ≫= ymlCluster))) as Hcl.
  { unfold cluster. destruct (definition this) as [d|]; [|done].
    rewrite He. simpl. by destruct (truthyOpt (ymlCluster d)). }
  split; [|split; [|split; [done|split; [|split]]]].
  - unfold service. destruct (definition this) as [d|]; [|done].
    rewrite He. simpl. by destruct (truthyOpt (ymlService d)).
  - unfold stage. destruct (definition this) as [d|]; [|done].
    rewrite He. simpl. by destruct (truthyOpt (ymlStage d)).
  - unfold clusterBaseUrl. destruct (definition this) as [d|]; [|done].
    rewrite He. simpl. by rewrite orb_true_r.
  - unfold getClusterName.
    destruct (declaredCluster this) as [c|] eqn:Hdc; [done|].
    rewrite Hcl. simpl.
    destruct (definition this) as [d|] eqn:Hd; [|done]. simpl.
    by rewrite (declaredCluster_none this d Hd Hdc).
  - unfold getWorkspace. rewrite He.
    destruct (declaredCluster this) as [c|] eqn:Hdc; simpl.
    + destruct (1 <? length (split slash c))%nat; [done|].
      by destruct (definition this).
    + by destruct (definition this).
Qed.

(** X14: with an endpoint, from prisma.yml or from the environment,
    a non-empty [service], [stage] or [cluster] property makes its
    getter throw the deprecation error; without the property the
    getter returns what [parseEndpoint] finds in the endpoint, or
    fails as [parseEndpoint] does. *)
Theorem getters_with_endpoint this d e :
  definition this = Some d → endpoint' this = Some e →
  truthy_string e = true →
  service' this
  = (if truthyOpt (ymlService d)
     then Throw (deprecationMessage chalk_yellow)
     else cmap (λ parsed, Some (parsedService parsed)) (parseEndpoint e))
  ∧ stage' this
    = (if truthyOpt (ymlStage d)
       then Throw (deprecationMessage chalk_yellow)
       else cmap (λ parsed, Some (parsedStage parsed)) (parseEndpoint e))
  ∧ cluster' this
    = (if truthyOpt (ymlCluster d)
       then Throw (deprecationMessage chalk_yellow)
       else cmap (λ parsed, Some (parsedClusterName parsed))
              (parseEndpoint e)).
Proof.
  intros Hd He Ht. unfold service, stage, cluster.
  rewrite Hd, He. simpl truthyOpt. rewrite Ht. simpl.
  split; [|split].
  - destruct (truthyOpt (ymlService d)); [done|]. simpl.
    by destruct (parseEndpoint e).
  - destruct (truthyOpt (ymlStage d)); [done|]. simpl.
    by destruct (parseEndpoint e).
  - destruct (truthyOpt (ymlCluster d)); [done|]. simpl.
    by destruct (parseEndpoint e).
Qed.

Lemma cluster_throws this m :
  declaredCluster this = None → cluster' this = Throw m →
  ∃ e, endpoint' this = Some e ∧ parseEndpoint e = Throw m.
Proof.
  unfold cluster. intros Hdc.
  destruct (definition this) as [d|] eqn:Hd; [|done].
  rewrite (declaredCluster_none this d Hd Hdc), andb_false_r. simpl.
  destruct (endpoint' this) as [e|]; [|done]. simpl.
  destruct (truthy_string e); [|done]. simpl.
  intros [H|(parsed & _ & H)]%bind_throw; [by exists e|done].
Qed.

Lemma getClusterName_throws this m :
  getClusterName' this = Throw m →
  ∃ e, endpoint' this = Some e ∧ parseEndpoint e = Throw m.
Proof.
  unfold getClusterName.
  destruct (declaredCluster this) as [c|] eqn:Hdc; [done|].
  intros [H|(n & _ & H)]%bind_throw; [|done].
  by apply cluster_throws.
Qed.

Lemma getWorkspace_throws this m :
  getWorkspace' this = Throw m →
  ∃ e, endpoint' this = Some e ∧ parseEndpoint e = Throw m.
Proof.
  unfold getWorkspace.
  assert (match definition this with
          | Some _ =>
              if truthyOpt (endpoint' this) then
                parsed ← parseEndpoint
                           (default EmptyString (endpoint' this));
                Return (if truthyOpt (parsedWorkspaceSlug parsed)
                        then parsedWorkspaceSlug parsed else None)
              else Return None
          | None => Return None
          end = Throw m →
          ∃ e, endpoint' this = Some e ∧ parseEndpoint e = Throw m)
    as Hfrom.
  { destruct (definition this); [|done].
    destruct (endpoint' this) as [e|]; [|done]. simpl.
    destruct (truthy_string e); [|done].
    intros [H|(parsed & _ & H)]%bind_throw; [by exists e|done]. }
  destruct (declaredCluster this) as [c|]; [|done].
  by destruct (1 <? length (split slash c))%nat.
Qed.

Lemma lacksWorkspace_throws this name found m :
  lacksWorkspace' this name found = Throw m →
  ∃ e, endpoint' this = Some e ∧ parseEndpoint e = Throw m.
Proof.
  unfold lacksWorkspace. destruct found as [c|]; [|done].
  destruct (_ && _); [|done].
  intros [H|(w & _ & H)]%bind_throw; [|done].
  by apply getWorkspace_throws.
Qed.

Lemma lacksWorkspace_shared this name found :
  truthy_string name = true →
  PrismaDefinition.shared found = true →
  PrismaDefinition.isPrivate found = false →
  name ≠ "shared-public-demo" →
  lacksWorkspace' this (Some name) (Some found)
  = workspace ← getWorkspace' this; Return (negb (truthyOpt workspace)).
Proof.
  intros Ht Hshared Hprivate Hdemo. unfold lacksWorkspace.
  cbn [truthyOpt]. rewrite Ht, Hshared, Hprivate. cbn [andb negb].
  rewrite bool_decide_false by (intros [= ?]; done).
  destruct (getWorkspace' this) as [w|m]; cbv [mbind completion_bind];
    [by rewrite andb_true_r|done].
Qed.

(** X15: [validate] raises one of its own three errors or passes on
    the error of [parseEndpoint]; the deprecation error of the
    getters is never raised by it. *)
Theorem validate_errors this m :
  validate' this = Throw m →
  m = missingWorkspaceMessage chalk_bold chalk_bold_green
  ∨ m = demoEndpointMessage
          (default EmptyString (definition this ≫= ymlEndpoint))
  ∨ m = invalidEndpointMessage chalk_bold
          (default EmptyString (definition this ≫= ymlEndpoint))
  ∨ ∃ e, endpoint' this = Some e ∧ parseEndpoint e = Throw m.
Proof.
  unfold validate.
  intros [H|(name & _ & H)]%bind_throw;
    [do 3 right; by apply getClusterName_throws|].
  apply bind_throw in H as [H|(byCluster & _ & H)].
  { do 3 right. destruct (truthyOpt (definition this ≫= ymlCluster));
      [by apply lacksWorkspace_throws in H|done]. }
  destruct byCluster; [left; by injection H|].
  apply bind_throw in H as [H|(byEndpoint & _ & H)].
  { do 3 right. destruct (truthyOpt (definition this ≫= ymlEndpoint));
      [by apply lacksWorkspace_throws in H|done]. }
  destruct byEndpoint; [right; left; by injection H|].
  destruct (_ && _); [|done]. right; right; left. by injection H.
Qed.

(** X16: when [validate] returns, a non-empty [endpoint] of
    prisma.yml starts with [http]. *)
Theorem validate_endpoint this d e :
  validate' this = Return () →
  definition this = Some d → ymlEndpoint d = Some e →
  truthy_string e = true →
  startsWith e "http" = true.
Proof.
  unfold validate. intros H Hd He Ht.
  apply bind_return in H as (name & _ & H).
  apply bind_return in H as (byCluster & _ & H).
  destruct byCluster; [done|].
  apply bind_return in H as (byEndpoint & _ & H).
  destruct byEndpoint; [done|].
  rewrite Hd in H. simpl in H. rewrite He in H. simpl in H.
  rewrite Ht in H. simpl in H.
  by destruct (startsWith e "http").
Qed.

(** X17: when [validate] returns for a definition with a cluster or
    an endpoint property whose cluster is a known shared cluster that
    is not private and not [shared-public-demo], [getWorkspace]
    returns a non-empty workspace. *)
Theorem validate_workspace this name found :
  validate' this = Return () →
  getClusterName' this = Return (Some name) →
  truthy_string name = true →
  clusterByName (Some name) = Some found →
  PrismaDefinition.shared found = true →
  PrismaDefinition.isPrivate found = false →
  name ≠ "shared-public-demo" →
  truthyOpt (definition this ≫= ymlCluster)
  || truthyOpt (definition this ≫= ymlEndpoint) = true →
  ∃ workspace,
    getWorkspace' this = Return (Some workspace)
    ∧ truthy_string workspace = true.
Proof.
  unfold validate. intros H Hname Ht Hfound Hshared Hprivate Hdemo Hprop.
  apply bind_return in H as (name' & Hname' & H).
  rewrite Hname in Hname'. injection Hname' as <-.
  rewrite Hfound, (lacksWorkspace_shared this name found) in H by done.
  set (byCluster := truthyOpt (definition this ≫= ymlCluster)) in *.
  set (byEndpoint := truthyOpt (definition this ≫= ymlEndpoint)) in *.
  destruct (getWorkspace' this) as [[w|]|m];
    [destruct (truthy_string w) eqn:Hw; [by exists w|]|..];
    destruct byCluster, byEndpoint; simpl in Hprop; try done;
    cbv [mbind completion_bind] in H; simpl in H;
    rewrite ?Hw in H; done.
Qed.

(** X18: a cluster property [<workspace>/<name>] is taken apart
    again: [getWorkspace] returns the workspace, the empty one
    included, and [getClusterName] the name, whatever the endpoint
    is. *)
Theorem workspace_and_cluster_name this d workspace name :
  definition this = Some d →
  ymlCluster d = Some (workspace +:+ String slash name) →
  allChars (isNot slash) workspace = true →
  allChars (isNot slash) name = true →
  getWorkspace' this = Return (Some workspace)
  ∧ getClusterName' this = Return (Some name).
Proof.
  intros Hd Hc Hw Hn.
  assert (declaredCluster this
          = Some (workspace +:+ String slash name)) as Hdc.
  { apply declaredCluster_some. exists d. split; [done|split; [done|]].
    by destruct workspace. }
  assert (split slash (workspace +:+ String slash name)
          = [workspace; name]) as Hs
    by (by rewrite split_app, split_free).
  unfold getWorkspace, getClusterName. by rewrite Hdc, Hs.
Qed.

(** *** The datamodel files *)

Lemma concat_empty_cons (x : string) (l : list string) :
  String.concat EmptyString (x :: l)
  = x +:+ String.concat EmptyString l.
Proof. destruct l; [by rewrite app_nil_r|reflexivity]. Qed.

Lemma forEachTypes_ok this (content : string → string) paths allTypes :
  (∀ p, p ∈ paths →
     existsSync (path_join (definitionDir this) p) = true
     ∧ readFileSync (path_join (definitionDir this) p)
       = Return (content p)) →
  forEachTypes' this allTypes paths
  = Return (allTypes
            +:+ String.concat EmptyString
                  ((λ p, content p +:+ lineFeed) <$> paths)).
Proof.
  revert allTypes. induction paths as [|p rest IH]; intros allTypes Hall.
  - simpl. by rewrite app_nil_r.
  - destruct (Hall p) as [Hex Hread]; [by left|].
    cbn [forEachTypes]. unfold addTypes. rewrite Hex, Hread.
    cbv [mbind completion_bind]. fold completion_bind.
    rewrite IH by (intros q Hq; apply Hall; by right).
    rewrite fmap_cons, concat_empty_cons. by rewrite append_assoc.
Qed.

(** X19: when every datamodel file exists and can be read,
    [getTypesString] returns the files' contents in the order of
    prisma.yml, each followed by a line feed; a single path counts
    as a list of one. *)
Theorem getTypesString_contents this d (content : string → string) :
  (∀ p, p ∈ match ymlDatamodel d with
            | Paths paths => paths
            | OnePath p => [p]
            end →
     existsSync (path_join (definitionDir this) p) = true
     ∧ readFileSync (path_join (definitionDir this) p)
       = Return (content p)) →
  getTypesString' this d
  = Return (String.concat EmptyString
              ((λ p, content p +:+ lineFeed)
                 <$> match ymlDatamodel d with
                     | Paths paths => paths
                     | OnePath p => [p]
                     end)).
Proof.
  intros Hall. unfold getTypesString.
  by rewrite (forEachTypes_ok this content _ EmptyString Hall).
Qed.

Lemma forEachTypes_missing this before p after allTypes :
  (∀ q, q ∈ before →
     existsSync (path_join (definitionDir this) q) = true
     ∧ ∃ text, readFileSync (path_join (definitionDir this) q)
               = Return text) →
  existsSync (path_join (definitionDir this) p) = false →
  forEachTypes' this allTypes (before ++ p :: after)%list
  = Throw (missingTypesMessage (path_join (definitionDir this) p)).
Proof.
  revert allTypes.
  induction before as [|q rest IH]; intros allTypes Hall Hp.
  - simpl. unfold addTypes. by rewrite Hp.
  - destruct (Hall q) as [Hex [text Hread]]; [by left|].
    simpl. unfold addTypes. rewrite Hex, Hread.
    cbv [mbind completion_bind]. fold completion_bind.
    apply IH; [|done]. intros r Hr. apply Hall. by right.
Qed.

(** X20: [getTypesString] fails on the first datamodel file that
    does not exist, with an error that names its joined path; the
    files listed after it are never looked at. *)
Theorem getTypesString_missing this d before p after :
  match ymlDatamodel d with
  | Paths paths => paths
  | OnePath q => [q]
  end = (before ++ p :: after)%list →
  (∀ q, q ∈ before →
     existsSync (path_join (definitionDir this) q) = true
     ∧ ∃ text, readFileSync (path_join (definitionDir this) q)
               = Return text) →
  existsSync (path_join (definitionDir this) p) = false →
  getTypesString' this d
  = Throw (missingTypesMessage (path_join (definitionDir this) p)).
Proof.
  intros Hpaths Hall Hp. unfold getTypesString. rewrite Hpaths.
  by apply forEachTypes_missing.
Qed.

End Environment.

(** *** The theorems at the examples *)

Lemma parseSecrets_parts_witness :
  ∃ first rest,
    parseSecrets (Some "first secret, second") = Some (first :: rest)
    ∧ join comma (first :: rest)
      = replaceEach isSpace EmptyString "first secret, second"
    ∧ Forall (λ w, allChars secretChar w = true) (first :: rest).
Proof.
  apply (parseSecrets_parts (Some "first secret, second")). reflexivity.
Defined.

Lemma getToken_after_load_witness :
  ∃ key rest,
    join comma (key :: rest)
    = replaceEach isSpace EmptyString "first secret, second"
    ∧ allChars secretChar key = true
    ∧ PrismaDefinition.getToken exampleSign (asClass loaded) "blog" "dev"
      = cmap Some
          (exampleSign
             {| PrismaDefinition.data :=
                  {| PrismaDefinition.service := "blog" +:+ "@" +:+ "dev";
                     PrismaDefinition.roles := ["admin"] |} |}
             (Some key)
             {| PrismaDefinition.expiresIn := "7d" |}).
Proof.
  apply (proj2 (getToken_after_load appExists appRead appJoin exampleSign
                  constructed loaded legacyDefinition "blog" "dev"
                  eq_refl)).
  reflexivity.
Defined.

Lemma declared_cluster_property_witness :
  (∃ parts name,
     getClusterName None parseLocal plain loaded = Return (Some name)
     ∧ join slash (parts ++ [name])%list = "myws/prisma-eu1"
     ∧ allChars (isNot slash) name = true)
  ∧ clusterBaseUrl None parseLocal loaded = Return None
  ∧ cluster None parseLocal plain loaded
    = if truthyOpt (endpoint None loaded)
      then Throw (deprecationMessage plain)
      else Return (Some "myws/prisma-eu1").
Proof.
  apply (declared_cluster_property None parseLocal plain loaded
           legacyDefinition "myws/prisma-eu1"); reflexivity.
Defined.

Lemma getters_without_endpoint_witness :
  service None parseLocal plain loaded = Return (Some "blog")
  ∧ stage None parseLocal plain loaded = Return (Some "dev").
Proof.
  destruct (getters_without_endpoint None parseLocal plain loaded eq_refl)
    as (Hservice & Hstage & _).
  split; [exact Hservice|exact Hstage].
Defined.

Lemma getters_with_endpoint_witness :
  service None parseLocal plain (withDefinition endpointDefinition)
  = Return (Some "blog")
  ∧ stage None parseLocal plain (withDefinition endpointDefinition)
    = Return (Some "dev").
Proof.
  destruct (getters_with_endpoint None parseLocal plain
              (withDefinition endpointDefinition) endpointDefinition
              "http://localhost:4466/blog/dev" eq_refl eq_refl eq_refl)
    as (Hservice & Hstage & _).
  split; [exact Hservice|exact Hstage].
Defined.

Lemma validate_errors_witness :
  missingWorkspaceMessage plain plain
  = missingWorkspaceMessage plain plain
  ∨ missingWorkspaceMessage plain plain
    = demoEndpointMessage
        (default EmptyString
           (definition (withDefinition bareClusterDefinition)
              ≫= ymlEndpoint))
  ∨ missingWorkspaceMessage plain plain
    = invalidEndpointMessage plain
        (default EmptyString
           (definition (withDefinition bareClusterDefinition)
              ≫= ymlEndpoint))
  ∨ ∃ e, endpoint None (withDefinition bareClusterDefinition) = Some e
         ∧ parseLocal e = Throw (missingWorkspaceMessage plain plain).
Proof.
  apply (validate_errors None parseLocal knownClusters plain plain plain
           (withDefinition bareClusterDefinition)
           (missingWorkspaceMessage plain plain)).
  reflexivity.
Defined.

Lemma validate_endpoint_witness :
  startsWith "http://localhost:4466/blog/dev" "http" = true.
Proof.
  apply (validate_endpoint None parseLocal knownClusters plain plain plain
           (withDefinition endpointDefinition) endpointDefinition
           "http://localhost:4466/blog/dev"); reflexivity.
Defined.

Lemma validate_workspace_witness :
  ∃ workspace,
    getWorkspace None parseLocal loaded = Return (Some workspace)
    ∧ truthy_string workspace = true.
Proof.
  apply (validate_workspace None parseLocal knownClusters plain plain plain
           loaded "prisma-eu1" PrismaDefinition.demoCluster);
    try reflexivity.
  intros [= ?].
Defined.

Lemma workspace_and_cluster_name_witness :
  getWorkspace None parseLocal loaded = Return (Some "myws")
  ∧ getClusterName None parseLocal plain loaded
    = Return (Some "prisma-eu1").
Proof.
  apply (workspace_and_cluster_name None parseLocal plain loaded
           legacyDefinition "myws" "prisma-eu1"); reflexivity.
Defined.

Lemma getTypesString_contents_witness :
  getTypesString appExists appRead appJoin constructed legacyDefinition
  = Return (String.concat EmptyString
              ((λ p, ("# /app/" +:+ p) +:+ lineFeed)
                 <$> ["datamodel.graphql"; "enums.graphql"])).
Proof.
  apply (getTypesString_contents appExists appRead appJoin constructed
           legacyDefinition (λ p, "# /app/" +:+ p)).
  intros p Hp.
  inversion_clear Hp as [|? ? ? Hp']; [split; reflexivity|].
  inversion_clear Hp' as [|? ? ? Hp]; [split; reflexivity|].
  inversion Hp.
Defined.

Lemma getTypesString_missing_witness :
  getTypesString appExists appRead appJoin constructed endpointDefinition
  = Throw (missingTypesMessage (appJoin "/app" "missing.graphql")).
Proof.
  apply (getTypesString_missing appExists appRead appJoin constructed
           endpointDefinition [] "missing.graphql" []).
  - reflexivity.
  - intros q Hq. inversion Hq.
  - reflexivity.
Defined.

End DefinitionFileFacts.
